(** * FluxDB: shallow embedding of src/config/config.go

    The RESP codec (writeString, writeError, writeInteger, writeBulkString,
    writeArray, parseRESP, parseArray, parseBulkString), the key-value and
    config store (Set, Get, Delete, SetConfig, GetConfig) and the command
    dispatcher (processCommand), with HandleConnection as a loop over an
    input byte stream.

    Go strings are byte strings: they are modelled as Rocq [string]
    (a list of 8-bit [ascii] characters); Go [int] is 64-bit and is
    modelled as [Z] with its range and wrap-around written out. *)

From Stdlib Require Import ZArith Ascii String.
From stdpp Require Import base gmap strings list.

Local Open Scope Z_scope.

(* ------------------------------------------------------------------ *)
(** ** Bytes and Go [int] *)

Definition CR : ascii := "013"%char.
Definition LF : ascii := "010"%char.
Definition crlf : string := String CR (String LF EmptyString).

Definition byte_code (c : ascii) : N := N_of_ascii c.

(** 64-bit two's complement [int]. *)
Definition min_int : Z := - 2 ^ 63.
Definition max_int : Z := 2 ^ 63 - 1.
Definition wrap_int (z : Z) : Z := (z + 2 ^ 63) mod 2 ^ 64 - 2 ^ 63.

(* ------------------------------------------------------------------ *)
(** ** Decimal printing: [fmt.Fprintf] with verb [%d] *)

Definition digit_char (d : N) : ascii := ascii_of_N (48 + d).

Fixpoint show_N_go (fuel : nat) (n : N) (acc : string) : string :=
  match fuel with
  | O => acc
  | S f =>
      if (n <? 10)%N then String (digit_char n) acc
      else show_N_go f (n / 10)%N (String (digit_char (n mod 10)%N) acc)
  end.

(** Every step divides by ten, so [N.to_nat n + 1] steps always suffice. *)
Definition show_N (n : N) : string := show_N_go (S (N.to_nat n)) n "".

Definition show_int (z : Z) : string :=
  if z <? 0 then String "-"%char (show_N (Z.to_N (- z))) else show_N (Z.to_N z).

(* ------------------------------------------------------------------ *)
(** ** [strconv.Atoi] (64-bit [int]) *)

Definition digit_value (c : ascii) : option Z :=
  let n := Z.of_N (byte_code c) in
  if (48 <=? n) && (n <=? 57) then Some (n - 48) else None.

Fixpoint parse_digits (s : string) (acc : Z) : option Z :=
  match s with
  | EmptyString => Some acc
  | String c r =>
      match digit_value c with
      | Some d => parse_digits r (acc * 10 + d)
      | None => None
      end
  end.

(** An optional sign, then one or more decimal digits (no underscores:
    the base is 10, not 0), the value in the range of [int]; anything
    else is a syntax or range error. *)
Definition Atoi (s : string) : option Z :=
  let '(neg, ds) :=
    match s with
    | String c r =>
        if Ascii.eqb c "-"%char then (true, r)
        else if Ascii.eqb c "+"%char then (false, r)
        else (false, s)
    | EmptyString => (false, s)
    end in
  match ds with
  | EmptyString => None
  | String _ _ =>
      match parse_digits ds 0 with
      | None => None
      | Some v =>
          let z := if neg then - v else v in
          if (min_int <=? z) && (z <=? max_int) then Some z else None
      end
  end.

(** Strings of decimal digits only, and strings without a newline byte. *)
Fixpoint all_digits (s : string) : bool :=
  match s with
  | EmptyString => true
  | String c r => match digit_value c with Some _ => all_digits r | None => false end
  end.

Fixpoint no_newline (s : string) : bool :=
  match s with
  | EmptyString => true
  | String c r => negb (Ascii.eqb c LF) && no_newline r
  end.

(* ------------------------------------------------------------------ *)
(** ** [unicode.IsSpace] on UTF-8 bytes, [strings.TrimSpace], [strings.Fields] *)

(** The ASCII spaces of Go's [asciiSpace] table. *)
Definition is_ascii_space (c : ascii) : bool :=
  match byte_code c with
  | 9 | 10 | 11 | 12 | 13 | 32 => true
  | _ => false
  end%N.

(** Two-byte UTF-8 encodings of White_Space: U+0085, U+00A0. *)
Definition is_space2 (a b : ascii) : bool :=
  (byte_code a =? 194)%N && ((byte_code b =? 133)%N || (byte_code b =? 160)%N).

(** Three-byte UTF-8 encodings of White_Space: U+1680, U+2000..U+200A,
    U+2028, U+2029, U+202F, U+205F, U+3000. *)
Definition is_space3 (a b c : ascii) : bool :=
  let a := byte_code a in let b := byte_code b in let c := byte_code c in
  ((a =? 225) && (b =? 154) && (c =? 128)
   || (a =? 226) && (b =? 128)
        && ((128 <=? c) && (c <=? 138) || (c =? 168) || (c =? 169) || (c =? 175))
   || (a =? 226) && (b =? 129) && (c =? 159)
   || (a =? 227) && (b =? 128) && (c =? 128))%N.

(** [strings.TrimLeftFunc(s, unicode.IsSpace)]: a space rune at the head
    is one ASCII space byte or one of the UTF-8 sequences above (a lead
    byte always starts a rune, so matching bytes is exact). *)
Fixpoint trim_left (s : string) : string :=
  match s with
  | EmptyString => EmptyString
  | String a r =>
      if is_ascii_space a then trim_left r else
      match r with
      | String b r2 =>
          if is_space2 a b then trim_left r2 else
          match r2 with
          | String c r3 => if is_space3 a b c then trim_left r3 else s
          | EmptyString => s
          end
      | EmptyString => s
      end
  end.

(** The same on a reversed string: strips space runes at the end of the
    original ([utf8.DecodeLastRuneInString] reads the same sequences). *)
Fixpoint trim_left_rev (s : string) : string :=
  match s with
  | EmptyString => EmptyString
  | String c r =>
      if is_ascii_space c then trim_left_rev r else
      match r with
      | String b r2 =>
          if is_space2 b c then trim_left_rev r2 else
          match r2 with
          | String a r3 => if is_space3 a b c then trim_left_rev r3 else s
          | EmptyString => s
          end
      | EmptyString => s
      end
  end.

Definition trim_right (s : string) : string :=
  String.rev (trim_left_rev (String.rev s)).

Definition TrimSpace (s : string) : string := trim_right (trim_left s).

(** [strings.Fields]: maximal runs of non-space runes; [cur] is the
    current field, reversed. *)
Definition flush (cur : string) (l : list string) : list string :=
  match cur with
  | EmptyString => l
  | String _ _ => String.rev cur :: l
  end.

Fixpoint fields_go (cur : string) (s : string) : list string :=
  match s with
  | EmptyString => flush cur []
  | String a r =>
      if is_ascii_space a then flush cur (fields_go EmptyString r) else
      match r with
      | String b r2 =>
          if is_space2 a b then flush cur (fields_go EmptyString r2) else
          match r2 with
          | String c r3 =>
              if is_space3 a b c then flush cur (fields_go EmptyString r3)
              else fields_go (String a cur) r
          | EmptyString => fields_go (String a cur) r
          end
      | EmptyString => fields_go (String a cur) r
      end
  end.

Definition Fields (s : string) : list string := fields_go EmptyString s.

(** [strings.ToUpper]. When every byte is below 0x80 Go takes its ASCII
    path: a..z to A..Z, every other byte kept. Otherwise it returns
    [strings.Map(unicode.ToUpper, s)] (Unicode case mapping, invalid UTF-8
    bytes replaced by U+FFFD); the Unicode case tables are not modelled,
    that function is the argument [map_upper]. *)
Definition upper_char (c : ascii) : ascii :=
  let n := byte_code c in
  if ((97 <=? n) && (n <=? 122))%N then ascii_of_N (n - 32) else c.

Fixpoint is_ascii (s : string) : bool :=
  match s with
  | EmptyString => true
  | String c r => (byte_code c <? 128)%N && is_ascii r
  end.

Fixpoint upper_ascii (s : string) : string :=
  match s with
  | EmptyString => EmptyString
  | String c r => String (upper_char c) (upper_ascii r)
  end.

Definition ToUpper (map_upper : string -> string) (s : string) : string :=
  if is_ascii s then upper_ascii s else map_upper s.

(* ------------------------------------------------------------------ *)
(** ** The [bufio.Reader] over the connection's byte stream

    A read returns its result and the unread rest of the stream, or an
    error value. [Panic] is a Go run-time panic. *)

Inductive read_error :=
  | EOF                      (* io.EOF *)
  | ErrUnexpectedEOF         (* io.ErrUnexpectedEOF *)
  | ErrMsg (msg : string).   (* an error built with fmt.Errorf *)

Inductive outcome (A : Type) :=
  | Ok (a : A) (rest : string)
  | Fail (e : read_error)
  | Panic (msg : string).
Arguments Ok {A} a rest.
Arguments Fail {A} e.
Arguments Panic {A} msg.

Definition bind {A B} (m : outcome A) (k : A -> string -> outcome B) : outcome B :=
  match m with
  | Ok a r => k a r
  | Fail e => Fail e
  | Panic p => Panic p
  end.

Notation "'let*' ( x , r ) := m 'in' k" := (bind m (fun x r => k))
  (at level 200, x name, r name, m at level 100, right associativity).

(** [reader.ReadByte()] *)
Definition ReadByte (s : string) : outcome ascii :=
  match s with
  | EmptyString => Fail EOF
  | String c r => Ok c r
  end.

(** [reader.ReadString('\n')]: the bytes up to and including the first
    newline; at the end of the stream without one, [io.EOF]. *)
Fixpoint ReadLine (s : string) : outcome string :=
  match s with
  | EmptyString => Fail EOF
  | String c r =>
      if Ascii.eqb c LF then Ok (String c EmptyString) r
      else bind (ReadLine r) (fun l r' => Ok (String c l) r')
  end.

(** [io.ReadFull(reader, buf)] with [len(buf) = n]. *)
Definition ReadFull (n : Z) (s : string) : outcome string :=
  if Z.of_nat (String.length s) <? n then
    (if String.length s =? 0 then Fail EOF else Fail ErrUnexpectedEOF)%nat
  else Ok (substring 0 (Z.to_nat n) s) (substring (Z.to_nat n) (String.length s) s).

(** [runtime.makeslice] refuses a slice of more than [maxAlloc] bytes,
    [2^48] on 64-bit Linux ([1 << heapAddrBits]). Running out of memory
    below that limit is not modelled: such allocations succeed. *)
Definition maxAlloc : Z := 2 ^ 48.

(** [make([]byte, n)] panics when [n] is negative or above [maxAlloc]. *)
Definition make_bytes_ok (n : Z) : bool := (0 <=? n) && (n <=? maxAlloc).

(** [make([]string, 0, count)] with [count >= 0] panics when the
    [count] string headers of 16 bytes each exceed [maxAlloc]. *)
Definition make_strings_ok (count : Z) : bool := 16 * count <=? maxAlloc.

(* ------------------------------------------------------------------ *)
(** ** The parser *)

Definition invalid_bulk (line : string) : read_error :=
  ErrMsg ("invalid bulk string length: " +:+ line).
Definition invalid_array (line : string) : read_error :=
  ErrMsg ("invalid array length: " +:+ line).
Definition expected_bulk (b : ascii) : read_error :=
  ErrMsg ("expected bulk string in array, got: " +:+ String b EmptyString).

(** [parseBulkString]: reads one byte (meant to be the [$] marker), the
    length line, then [length + 2] bytes of which the first [length] are
    returned. *)
Definition parseBulkString (s : string) : outcome string :=
  let* (_, s) := ReadByte s in
  let* (line, s) := ReadLine s in
  let line := TrimSpace line in
  match Atoi line with
  | None => Fail (invalid_bulk line)
  | Some length =>
      if length <? 0 then Ok EmptyString s   (* Null bulk string *)
      else
        let n := wrap_int (length + 2) in
        if negb (make_bytes_ok n) then Panic "makeslice: len out of range"
        else
          let* (buf, s) := ReadFull n s in
          Ok (substring 0 (Z.to_nat length) buf) s
  end.

(** The loop of [parseArray]: [count] more elements, each first checked
    with [ReadByte] for a [$] and put back with [UnreadByte]. Every
    element consumes at least one byte, so [fuel] at least the length of
    the stream plus one never runs out before the stream does. *)
Fixpoint parse_elements (fuel : nat) (count : Z) (s : string) : outcome (list string) :=
  if count <=? 0 then Ok [] s else
  match fuel with
  | O => Fail EOF
  | S f =>
      let* (b, _) := ReadByte s in
      if negb (Ascii.eqb b "$"%char) then Fail (expected_bulk b) else
      let* (x, s) := parseBulkString s in
      let* (xs, s) := parse_elements f (count - 1) s in
      Ok (x :: xs) s
  end.

(** [parseArray]: the count line, then the elements; a negative count is
    the null array ([nil, nil]). [make([]string, 0, count)] only runs
    with [count >= 0], and panics on a capacity above [maxAlloc]. *)
Definition parseArray (s : string) : outcome (list string) :=
  let* (line, s) := ReadLine s in
  let line := TrimSpace line in
  match Atoi line with
  | None => Fail (invalid_array line)
  | Some count =>
      if count <? 0 then Ok [] s
      else if negb (make_strings_ok count) then Panic "makeslice: cap out of range"
      else parse_elements (S (String.length s)) count s
  end.

(** [parseRESP]: one protocol unit. *)
Definition parseRESP (s : string) : outcome (list string) :=
  let* (b, s) := ReadByte s in
  if Ascii.eqb b "*"%char then parseArray s
  else if Ascii.eqb b "$"%char then
    let* (x, s) := parseBulkString s in Ok [x] s
  else
    let* (line, s) := ReadLine s in
    let line := TrimSpace line in
    Ok (Fields (String b line)) s.

(* ------------------------------------------------------------------ *)
(** ** The writers: the bytes each one sends on the connection *)

Definition writeString (s : string) : string := "+" +:+ s +:+ crlf.
Definition writeError (s : string) : string := "-" +:+ s +:+ crlf.
Definition writeInteger (i : Z) : string := ":" +:+ show_int i +:+ crlf.
Definition writeBulkString (s : string) : string :=
  "$" +:+ show_int (Z.of_nat (String.length s)) +:+ crlf +:+ s +:+ crlf.

Fixpoint write_elements (arr : list string) : string :=
  match arr with
  | [] => EmptyString
  | s :: arr => writeBulkString s +:+ write_elements arr
  end.

Definition writeArray (arr : list string) : string :=
  "*" +:+ show_int (Z.of_nat (length arr)) +:+ crlf +:+ write_elements arr.

Example parse_example :
  parseRESP ("*2" +:+ crlf +:+ "$3" +:+ crlf +:+ "GET" +:+ crlf +:+ "$3" +:+ crlf
             +:+ "foo" +:+ crlf) = Ok ["GET"; "foo"] EmptyString.
Proof. vm_compute. reflexivity. Qed.

Example write_array_example :
  writeArray ["GET"; "foo"] =
  "*2" +:+ crlf +:+ "$3" +:+ crlf +:+ "GET" +:+ crlf +:+ "$3" +:+ crlf +:+ "foo" +:+ crlf.
Proof. vm_compute. reflexivity. Qed.

Example inline_example :
  parseRESP ("PING  hello " +:+ crlf) = Ok ["PING"; "hello"] EmptyString.
Proof. vm_compute. reflexivity. Qed.

(* ------------------------------------------------------------------ *)
(** ** The store: [FluxDB] and its operations

    The lock is not modelled: every operation below runs as one step on
    the state. *)

Record FluxDB := mkFluxDB {
  data : gmap string string;
  config : gmap string string
}.

Definition New : FluxDB :=
  mkFluxDB ∅
    (<["timeout" := "0"]> (<["max_clients" := "10000"]>
      (<["bind" := "0.0.0.0"]> (<["port" := "6379"]> ∅)))).

(** [Set] refuses to overwrite: it answers ["false"] when the key exists. *)
Definition Set_ (key value : string) (f : FluxDB) : string * FluxDB :=
  match data f !! key with
  | Some _ => ("false", f)
  | None => ("OK", mkFluxDB (<[key := value]> (data f)) (config f))
  end.

(** [Get] answers the sentinel ["nil"] for a missing key. *)
Definition Get (key : string) (f : FluxDB) : string :=
  match data f !! key with
  | Some val => val
  | None => "nil"
  end.

(** [Delete] always answers ["OK"]. *)
Definition Delete (key : string) (f : FluxDB) : string * FluxDB :=
  ("OK", mkFluxDB (delete key (data f)) (config f)).

Definition SetConfig (key value : string) (f : FluxDB) : string * FluxDB :=
  ("OK", mkFluxDB (data f) (<[key := value]> (config f))).

Definition GetConfig (key : string) (f : FluxDB) : string :=
  match config f !! key with
  | Some val => val
  | None => "nil"
  end.

(* ------------------------------------------------------------------ *)
(** ** The dispatcher: [processCommand] *)

Definition helpText : string :=
  "Available commands:" +:+ crlf +:+
  "PING - Test connection" +:+ crlf +:+
  "SET key value - Set a key value pair" +:+ crlf +:+
  "GET key - Get a key value pair" +:+ crlf +:+
  "DEL key - Delete a key value pair" +:+ crlf +:+
  "CONFIG GET/SET - View or modify configuration" +:+ crlf +:+
  "SELECT db - Select a logical database" +:+ crlf +:+
  "HELP - Show this help".

Definition arity_error (name : string) : string :=
  writeError ("wrong number of arguments for '" +:+ name +:+ "' command").

(** The loop of the [DEL] case: one [Delete] per key, counting the
    answers equal to ["true"]. *)
Fixpoint del_keys (keys : list string) (count : Z) (f : FluxDB) : Z * FluxDB :=
  match keys with
  | [] => (count, f)
  | key :: keys =>
      let '(deleted, f) := Delete key f in
      let count := if String.eqb deleted "true" then count + 1 else count in
      del_keys keys count f
  end.

Record go_runtime := mkRuntime {
  range_config : gmap string string -> list (string * string);
  unicode_upper : string -> string
}.

Section Dispatch.

(** What the dispatcher takes from the Go runtime and the model leaves
    open: the order of [for k, v := range r.config] (Go leaves the
    iteration order of a map unspecified), and [strings.Map(unicode.ToUpper, s)]
    for the non-ASCII case of [strings.ToUpper]. *)
Variable rt : go_runtime.

Definition config_get (pattern : string) (f : FluxDB) : list string :=
  if String.eqb pattern "*" then
    List.concat (List.map (fun kv => [fst kv; snd kv]) (range_config rt (config f)))
  else
    let val := GetConfig pattern f in
    if negb (String.eqb val "") then [pattern; val] else [].

(** [processCommand cmd]: the bytes written to the connection and the
    state afterwards. *)
Definition processCommand (cmd : list string) (r : FluxDB) : string * FluxDB :=
  match cmd with
  | [] => (EmptyString, r)
  | c :: args =>
    let command := ToUpper (unicode_upper rt) c in
    if String.eqb command "PING" then
      match args with
      | [] => (writeString "PONG", r)
      | a :: _ => (writeBulkString a, r)
      end
    else if String.eqb command "SET" then
      match args with
      | k :: v :: _ => let '(result, r) := Set_ k v r in (writeString result, r)
      | _ => (arity_error "set", r)
      end
    else if String.eqb command "GET" then
      match args with
      | k :: _ => (writeBulkString (Get k r), r)
      | [] => (arity_error "get", r)
      end
    else if String.eqb command "DEL" then
      match args with
      | [] => (arity_error "del", r)
      | _ => let '(count, r) := del_keys args 0 r in (writeInteger count, r)
      end
    else if String.eqb command "HELP" then (writeBulkString helpText, r)
    else if String.eqb command "SELECT" then
      match args with
      | [] => (arity_error "select", r)
      | _ => (writeString "OK", r)
      end
    else if String.eqb command "CONFIG" then
      match args with
      | [] => (arity_error "config", r)
      | sub :: rest =>
        let subcommand := ToUpper (unicode_upper rt) sub in
        if String.eqb subcommand "GET" then
          match rest with
          | pattern :: _ => (writeArray (config_get pattern r), r)
          | [] => (arity_error "config get", r)
          end
        else if String.eqb subcommand "SET" then
          match rest with
          | name :: value :: _ => let '(_, r) := SetConfig name value r in (writeString "OK", r)
          | _ => (arity_error "config set", r)
          end
        else (writeError "unsupported config operation", r)
      end
    else (writeError ("unknown command '" +:+ command +:+ "'"), r)
  end.

(** Several commands one after the other on the same store: the replies
    in order and the final state. *)
Fixpoint process_all (cmds : list (list string)) (r : FluxDB) : list string * FluxDB :=
  match cmds with
  | [] => ([], r)
  | cmd :: cmds =>
      let '(reply, r) := processCommand cmd r in
      let '(replies, r) := process_all cmds r in
      (reply :: replies, r)
  end.

(** [HandleConnection]: decode, skip empty commands, dispatch, until the
    decoder fails or panics. The result is everything written to the
    connection, the state, and how the loop ended. *)
Fixpoint handle_go (fuel : nat) (s : string) (r : FluxDB)
  : string * FluxDB * outcome unit :=
  match fuel with
  | O => (EmptyString, r, Fail EOF)
  | S fuel =>
    match parseRESP s with
    | Ok cmd s =>
        match cmd with
        | [] => handle_go fuel s r
        | _ =>
            let '(reply, r) := processCommand cmd r in
            let '(out, r, fin) := handle_go fuel s r in
            (reply +:+ out, r, fin)
        end
    | Fail e => (EmptyString, r, Fail e)
    | Panic p => (EmptyString, r, Panic p)
    end
  end.

(** Every decoded unit consumes at least one byte. *)
Definition HandleConnection (s : string) (r : FluxDB) : string * FluxDB * outcome unit :=
  handle_go (S (String.length s)) s r.

End Dispatch.

(** The runtime of one concrete run, used in examples: the config map
    iterated in key order, and non-ASCII bytes left as they are by the
    Unicode mapping (the examples only use ASCII verbs). *)
Definition example_rt : go_runtime := mkRuntime (fun m => map_to_list m) (fun s => s).

Definition resp_command (toks : list string) : string := writeArray toks.

(** A store with [foo] bound to [bar]. *)
Definition foo_bar : FluxDB := mkFluxDB {["foo" := "bar"]} (config New).

(** The minimum argument counts the dispatcher checks, per verb path
    (verb, or CONFIG and its subcommand): the number of tokens that must
    follow the verb, and the name in the error message. [PING] and [HELP]
    have no check. *)
Definition min_arity : list (list string * string * nat) :=
  [(["SET"], "set", 2%nat); (["GET"], "get", 1%nat); (["DEL"], "del", 1%nat);
   (["SELECT"], "select", 1%nat); (["CONFIG"], "config", 1%nat);
   (["CONFIG"; "GET"], "config get", 2%nat); (["CONFIG"; "SET"], "config set", 3%nat)].

(** A client that pipelines commands: each one sent as an array frame,
    one after the other. *)
Definition encode_commands (cmds : list (list string)) : string :=
  foldr (fun cmd s => writeArray cmd +:+ s) EmptyString cmds.

(** The replies of several commands, written one after the other. *)
Definition concat_strings (l : list string) : string :=
  foldr String.append EmptyString l.

(** A token list whose array frame has lengths in the range of [int]
    (with room for the two trailing bytes of each element). *)
Definition encodable (cmd : list string) : Prop :=
  16 * Z.of_nat (length cmd) <= maxAlloc
  /\ Forall (fun t => Z.of_nat (String.length t) + 2 <= maxAlloc) cmd.

(** Whether a string holds one of the ASCII space bytes. *)
Fixpoint has_ascii_space (s : string) : bool :=
  match s with
  | EmptyString => false
  | String c r => is_ascii_space c || has_ascii_space r
  end.

(** The end-to-end scenario of the spec: SET, GET, DEL, GET on one
    connection. *)
Example spec_scenario_example :
  HandleConnection example_rt
    (resp_command ["SET"; "foo"; "bar"] +:+ resp_command ["GET"; "foo"]
     +:+ resp_command ["DEL"; "foo"] +:+ resp_command ["GET"; "foo"]) New
  = ("+OK" +:+ crlf +:+ "$3" +:+ crlf +:+ "bar" +:+ crlf +:+ ":0" +:+ crlf
     +:+ "$3" +:+ crlf +:+ "nil" +:+ crlf, New, Fail EOF).
Proof. vm_compute. reflexivity. Qed.

Example end_to_end_example :
  fst (fst (HandleConnection example_rt
    (resp_command ["SET"; "foo"; "bar"] +:+ resp_command ["GET"; "foo"]) New))
  = "+OK" +:+ crlf +:+ "$3" +:+ crlf +:+ "bar" +:+ crlf.
Proof. vm_compute. reflexivity. Qed.

(* ------------------------------------------------------------------ *)
(** ** Lemmas on the store and the dispatcher *)

Lemma del_keys_spec (keys : list string) (count : Z) (f : FluxDB) :
  del_keys keys count f =
  (count, mkFluxDB (foldl (fun m key => delete key m) (data f) keys) (config f)).
Proof.
  revert count f. induction keys as [|k keys IH]; intros count f; simpl.
  - by destruct f.
  - rewrite IH. reflexivity.
Qed.

Lemma process_all_two rc (c1 c2 : list string) (r : FluxDB) :
  process_all rc [c1; c2] r =
  let '(a1, r1) := processCommand rc c1 r in
  let '(a2, r2) := processCommand rc c2 r1 in ([a1; a2], r2).
Proof.
  simpl. destruct (processCommand rc c1 r) as [a1 r1].
  destruct (processCommand rc c2 r1) as [a2 r2]. reflexivity.
Qed.

(* ------------------------------------------------------------------ *)
(** ** C1: SET then GET *)

(** C1 (counterexample): with [foo] already bound to [bar], [SET foo baz]
    then [GET foo] does not reply with [baz]: [Set] refuses to overwrite. *)
Lemma C1_set_get_overwrite_refused :
  fst (process_all example_rt [["SET"; "foo"; "baz"]; ["GET"; "foo"]] foo_bar)
  = [writeString "false"; writeBulkString "bar"]
  /\ writeBulkString "bar" <> writeBulkString "baz".
Proof. split; vm_compute; [reflexivity | discriminate]. Qed.

(** C1 (amended): after [SET k v], [GET k] replies with the bulk string
    [v] when [k] was unbound ([SET] replied [+OK]); when [k] was bound to
    [w], [SET] replies [+false], the store is unchanged and [GET k]
    replies with [w]. *)
Theorem C1_set_then_get rc (r : FluxDB) (k v : string) :
  process_all rc [["SET"; k; v]; ["GET"; k]] r =
  match data r !! k with
  | Some w => ([writeString "false"; writeBulkString w], r)
  | None => ([writeString "OK"; writeBulkString v],
             mkFluxDB (<[k := v]> (data r)) (config r))
  end.
Proof.
  rewrite process_all_two. simpl. unfold Set_.
  destruct (data r !! k) as [w|] eqn:E; simpl; unfold Get.
  - rewrite E. reflexivity.
  - simpl. rewrite lookup_insert_eq. reflexivity.
Qed.

(* ------------------------------------------------------------------ *)
(** ** C2: DEL *)

(** C2: [DEL] with one or more keys removes every listed key but always
    replies [:0]: [Delete] answers ["OK"] and the loop counts ["true"]. *)
Theorem C2_del_always_zero rc (r : FluxDB) (k : string) (ks : list string) :
  processCommand rc ("DEL" :: k :: ks) r =
  (":0" +:+ crlf,
   mkFluxDB (foldl (fun m key => delete key m) (data r) (k :: ks)) (config r)).
Proof.
  simpl. rewrite del_keys_spec. reflexivity.
Qed.

(* ------------------------------------------------------------------ *)
(** ** C3 and C9: GET of a missing key *)

(** C3 (code bug): [GET k] for a missing [k] does not reply with the
    null bulk string [$-1\r\n]. [Get] answers the absence sentinel
    ["nil"] and the dispatcher writes it as the three-byte bulk string
    [$3\r\nnil\r\n]; the store is unchanged. *)
Theorem C3_get_missing rc (r : FluxDB) (k : string) :
  data r !! k = None ->
  processCommand rc ["GET"; k] r = ("$3" +:+ crlf +:+ "nil" +:+ crlf, r)
  /\ fst (processCommand rc ["GET"; k] r) <> "$-1" +:+ crlf.
Proof.
  intros E. simpl. unfold Get. rewrite E. split; [reflexivity|discriminate].
Qed.

Lemma C3_get_missing_witness :
  data New !! "foo" = None /\
  processCommand example_rt ["GET"; "foo"] New = ("$3" +:+ crlf +:+ "nil" +:+ crlf, New)
  /\ fst (processCommand example_rt ["GET"; "foo"] New) <> "$-1" +:+ crlf.
Proof. split; [reflexivity | apply C3_get_missing; reflexivity]. Defined.

(** C9: [GET k] replies the same bytes [$3\r\nnil\r\n] whether [k] is
    bound to the value [nil] or missing. *)
Theorem C9_nil_indistinguishable rc (r1 r2 : FluxDB) (k : string) :
  data r1 !! k = Some "nil" -> data r2 !! k = None ->
  fst (processCommand rc ["GET"; k] r1) = fst (processCommand rc ["GET"; k] r2)
  /\ fst (processCommand rc ["GET"; k] r2) = "$3" +:+ crlf +:+ "nil" +:+ crlf.
Proof.
  intros E1 E2. simpl. unfold Get. rewrite E1, E2. split; reflexivity.
Qed.

Lemma C9_nil_indistinguishable_witness :
  fst (processCommand example_rt ["GET"; "k"]
         (mkFluxDB {["k" := "nil"]} (config New)))
  = fst (processCommand example_rt ["GET"; "k"] New)
  /\ fst (processCommand example_rt ["GET"; "k"] New)
     = "$3" +:+ crlf +:+ "nil" +:+ crlf.
Proof. apply C9_nil_indistinguishable; reflexivity. Defined.

(* ------------------------------------------------------------------ *)
(** ** C4: CONFIG GET of an unset name *)

(** C4: [CONFIG GET n] for an unset name [n] other than [*] replies with
    the one-pair array [(n, "nil")], not the empty array: [GetConfig]
    answers ["nil"] and the dispatcher only tests for [""]. *)
Theorem C4_config_get_unset rc (r : FluxDB) (n : string) :
  n <> "*" -> config r !! n = None ->
  processCommand rc ["CONFIG"; "GET"; n] r = (writeArray [n; "nil"], r).
Proof.
  intros Hn E. simpl. unfold config_get.
  destruct (String.eqb_spec n "*") as [->|_]; [congruence|].
  unfold GetConfig. rewrite E. reflexivity.
Qed.

Lemma C4_config_get_unset_witness :
  processCommand example_rt ["CONFIG"; "GET"; "maxmemory"] New
  = (writeArray ["maxmemory"; "nil"], New).
Proof. apply C4_config_get_unset; [discriminate | reflexivity]. Defined.

(* ------------------------------------------------------------------ *)
(** ** C5 and C8: the decoder on concrete inputs *)

(** C5: a well-formed top-level bulk string [$3\r\nfoo\r\n] is rejected:
    [parseRESP] consumes the [$] and [parseBulkString] reads one more byte
    as the marker, the length digit [3], leaving an empty length line. *)
Theorem C5_top_level_bulk_rejected :
  parseRESP ("$3" +:+ crlf +:+ "foo" +:+ crlf)
  = Fail (ErrMsg "invalid bulk string length: ").
Proof. vm_compute. reflexivity. Qed.

(** C8: the decoder panics on an element of declared length
    [2^63 - 1] ([length + 2] wraps to a negative [make] length), and
    accepts the non-numeric length line [a5] after a top-level [$]. *)
Theorem C8_decoder_panics_and_accepts :
  parseRESP ("*1" +:+ crlf +:+ "$9223372036854775807" +:+ crlf)
  = Panic "makeslice: len out of range"
  /\ parseRESP ("$a5" +:+ crlf +:+ "hello" +:+ crlf) = Ok ["hello"] EmptyString.
Proof. split; vm_compute; reflexivity. Qed.

(* ------------------------------------------------------------------ *)
(** ** C6: arity checks *)

(** C6 (counterexample): [SET k v x] has three arguments where SET takes
    two, yet it is not refused: it replies [+OK] and stores [k]; [PING a b]
    replies with the bulk string [a]. *)
Lemma C6_extra_arguments_accepted :
  processCommand example_rt ["SET"; "k"; "v"; "x"] New
  = (writeString "OK", mkFluxDB {["k" := "v"]} (config New))
  /\ fst (processCommand example_rt ["PING"; "a"; "b"] New) = writeBulkString "a".
Proof. split; vm_compute; reflexivity. Qed.

Ltac solve_arity :=
  repeat match goal with
  | H : (length (_ :: _) < _)%nat |- _ => simpl in H
  | H : (S _ < S _)%nat |- _ => apply Nat.succ_lt_mono in H
  | l : list string, H : (length ?l < _)%nat |- _ =>
      destruct l; [clear H | simpl in H; try lia]
  end.

Ltac eqb_cases :=
  repeat match goal with
  | |- context [String.eqb ?a ?b] => destruct (String.eqb_spec a b)
  end.

Ltac verb_path Hin Hup :=
  simpl in Hin;
  repeat destruct Hin as [Hin|Hin]; try contradiction; injection Hin as <- <- <-.

Ltac verb_tokens toks Hup :=
  let c := fresh "c" in let c' := fresh "c'" in
  let Hc := fresh "Hc" in let Hc' := fresh "Hc'" in
  destruct toks as [|c toks]; try discriminate;
  injection Hup as Hc Hup; subst;
  try (destruct toks as [|c' toks]; try discriminate;
       injection Hup as Hc' Hup; subst);
  (destruct toks; [|discriminate]).

(** C6 (amended): every verb path of [min_arity] (verbs and CONFIG
    subcommands are case-insensitive) checks a minimum number of tokens
    and nothing else:
    - below the minimum the reply is the error frame
      [-wrong number of arguments for '<name>' command] and the state
      (both the key-value and the config map) is unchanged;
    - at or above the minimum that error frame is never the reply;
    - tokens after the minimum are ignored, except by DEL (which deletes
      every listed key) and by CONFIG, whose further tokens are read by
      its subcommands;
    - PING and HELP have no check: with any tokens, or none, they reply
      with no error frame of the arity kind and leave the state alone. *)
Theorem C6_arity_checks rc (r : FluxDB) :
  (forall toks extra verb name n,
     In (verb, name, n) min_arity ->
     List.map (ToUpper (unicode_upper rc)) toks = verb ->
     (length (List.tl toks ++ extra) < n)%nat ->
     processCommand rc (toks ++ extra) r = (arity_error name, r))
  /\ (forall toks extra verb name n,
     In (verb, name, n) min_arity ->
     List.map (ToUpper (unicode_upper rc)) toks = verb ->
     (n <= length (List.tl toks ++ extra))%nat ->
     fst (processCommand rc (toks ++ extra) r) <> arity_error name)
  /\ (forall toks args more verb name n,
     In (verb, name, n) min_arity -> name <> "del" -> name <> "config" ->
     List.map (ToUpper (unicode_upper rc)) toks = verb ->
     length (List.tl toks ++ args) = n ->
     processCommand rc (toks ++ args ++ more) r = processCommand rc (toks ++ args) r)
  /\ (forall c args name,
     ToUpper (unicode_upper rc) c = "PING" \/ ToUpper (unicode_upper rc) c = "HELP" ->
     fst (processCommand rc (c :: args) r) <> arity_error name
     /\ snd (processCommand rc (c :: args) r) = r).
Proof.
  split; [|split; [|split]].
  - intros toks extra verb name n Hin Hup Hlen.
    verb_path Hin Hup; verb_tokens toks Hup;
      simpl in Hlen |- *; rewrite ?Hc, ?Hc'; simpl;
      solve_arity; reflexivity.
  - intros toks extra verb name n Hin Hup Hlen.
    verb_path Hin Hup; verb_tokens toks Hup;
      simpl in Hlen |- *; rewrite ?Hc, ?Hc'; simpl;
      (destruct extra as [|a [|b [|d rest]]]; simpl in Hlen; try lia);
      simpl; eqb_cases; unfold Set_; rewrite ?del_keys_spec;
      try destruct (data r !! a); simpl;
      try discriminate; vm_compute; discriminate.
  - intros toks args more verb name n Hin Hdel Hcfg Hup Hlen.
    verb_path Hin Hup; try congruence; verb_tokens toks Hup;
      simpl in Hlen |- *;
      (destruct args as [|a [|b [|d rest]]]; simpl in Hlen; try lia);
      simpl; rewrite ?Hc, ?Hc'; reflexivity.
  - intros c args name [Hc|Hc]; simpl; rewrite Hc; simpl;
      destruct args; simpl; split; (discriminate || reflexivity).
Qed.

Lemma C6_arity_checks_witness :
  processCommand example_rt ["set"; "k"] New = (arity_error "set", New)
  /\ fst (processCommand example_rt ["DEL"; "a"; "b"] New) <> arity_error "del"
  /\ processCommand example_rt ["SET"; "k"; "v"; "x"] New
     = processCommand example_rt ["SET"; "k"; "v"] New
  /\ (fst (processCommand example_rt ["PING"; "a"; "b"] New) <> arity_error "ping"
      /\ snd (processCommand example_rt ["PING"; "a"; "b"] New) = New).
Proof.
  destruct (C6_arity_checks example_rt New) as (H1 & H2 & H3 & H4).
  split; [apply (H1 ["set"] ["k"] ["SET"] "set" 2%nat);
          [simpl; tauto | reflexivity | simpl; lia]|].
  split; [apply (H2 ["DEL"] ["a"; "b"] ["DEL"] "del" 1%nat);
          [simpl; tauto | reflexivity | simpl; lia]|].
  split; [apply (H3 ["SET"] ["k"; "v"] ["x"] ["SET"] "set" 2%nat);
          [simpl; tauto | discriminate | discriminate | reflexivity | reflexivity]|].
  apply H4. left. reflexivity.
Defined.

(* ------------------------------------------------------------------ *)
(** ** Lemmas on strings *)

Module Str.

Lemma app_cons (c : ascii) (s1 s2 : string) :
  String c s1 +:+ s2 = String c (s1 +:+ s2).
Proof. reflexivity. Qed.

Lemma app_nil_l (s : string) : EmptyString +:+ s = s.
Proof. reflexivity. Qed.

Lemma app_nil_r (s : string) : s +:+ EmptyString = s.
Proof. induction s as [|c s IH]; [done|]. rewrite app_cons, IH. done. Qed.

Lemma app_assoc (a b c : string) : (a +:+ b) +:+ c = a +:+ (b +:+ c).
Proof. induction a as [|x a IH]; [done|]. rewrite !app_cons, IH. done. Qed.

Lemma length_app (a b : string) :
  String.length (a +:+ b) = (String.length a + String.length b)%nat.
Proof. induction a as [|x a IH]; [done|]. rewrite app_cons. simpl. lia. Qed.

Lemma rev_app_spec (s acc : string) : String.rev_app s acc = String.rev s +:+ acc.
Proof.
  unfold String.rev. revert acc.
  induction s as [|c s IH]; intros acc; [done|]. simpl.
  rewrite (IH (String c acc)), (IH (String c EmptyString)), app_assoc. done.
Qed.

Lemma rev_cons (c : ascii) (s : string) :
  String.rev (String c s) = String.rev s +:+ String c EmptyString.
Proof. unfold String.rev at 1. simpl. apply rev_app_spec. Qed.

Lemma rev_app_distr (a b : string) :
  String.rev (a +:+ b) = String.rev b +:+ String.rev a.
Proof.
  induction a as [|c a IH].
  - rewrite app_nil_l, app_nil_r. done.
  - rewrite app_cons, !rev_cons, IH, app_assoc. done.
Qed.

Lemma rev_involutive (s : string) : String.rev (String.rev s) = s.
Proof.
  induction s as [|c s IH]; [done|].
  rewrite rev_cons, rev_app_distr, IH. done.
Qed.

Lemma substring_prefix (a b : string) :
  substring 0 (String.length a) (a +:+ b) = a.
Proof. induction a as [|c a IH]; [by destruct b|]. simpl. rewrite IH. done. Qed.

Lemma substring_long (s : string) (m : nat) :
  (String.length s <= m)%nat -> substring 0 m s = s.
Proof.
  revert m. induction s as [|c s IH]; intros m Hm; [by destruct m|].
  destruct m as [|m]; simpl in Hm; [lia|]. simpl. rewrite IH; [done|lia].
Qed.

Lemma substring_suffix (a b : string) (m : nat) :
  (String.length b <= m)%nat -> substring (String.length a) m (a +:+ b) = b.
Proof.
  intros Hm. induction a as [|c a IH].
  - by apply substring_long.
  - rewrite app_cons. simpl. destruct m; exact IH.
Qed.

End Str.

(* ------------------------------------------------------------------ *)
(** ** Lemmas on the codec *)

Module CodecFacts.

Lemma digit_char_facts (c : ascii) : digit_value c <> None ->
  is_ascii_space c = false /\ Ascii.eqb c LF = false /\
  Ascii.eqb c "-"%char = false /\ Ascii.eqb c "+"%char = false /\
  (forall b, is_space2 c b = false /\ is_space2 b c = false) /\
  (forall b d, is_space3 c b d = false /\ is_space3 b d c = false).
Proof.
  intros H. destruct c as [[] [] [] [] [] [] [] []];
  try (exfalso; apply H; reflexivity);
  repeat split; intros; unfold is_space2, is_space3; simpl;
  rewrite ?andb_false_r; reflexivity.
Qed.

Lemma digit_char_value (d : N) :
  (d < 10)%N -> digit_value (digit_char d) = Some (Z.of_N d).
Proof.
  intros Hd. unfold digit_value, digit_char, byte_code.
  rewrite N_ascii_embedding by lia.
  replace (Z.of_N (48 + d)) with (48 + Z.of_N d) by lia.
  assert (E : (48 <=? 48 + Z.of_N d) && (48 + Z.of_N d <=? 57) = true).
  { apply andb_true_intro. split; apply Z.leb_le; lia. }
  rewrite E. f_equal. lia.
Qed.

Lemma show_N_go_app (fuel : nat) (n : N) (acc : string) :
  show_N_go fuel n acc = show_N_go fuel n EmptyString +:+ acc.
Proof.
  revert n acc. induction fuel as [|f IH]; intros n acc; simpl; [done|].
  destruct (n <? 10)%N; [done|].
  rewrite (IH _ (String _ acc)), (IH _ (String _ EmptyString)), Str.app_assoc.
  done.
Qed.

Lemma parse_digits_app (x y : string) (a : Z) :
  parse_digits (x +:+ y) a =
  match parse_digits x a with Some v => parse_digits y v | None => None end.
Proof.
  revert a. induction x as [|c x IH]; intros a; [done|].
  rewrite Str.app_cons. simpl. destruct (digit_value c); [apply IH|done].
Qed.

Lemma show_N_go_parse (fuel : nat) (n : N) :
  (N.to_nat n < fuel)%nat ->
  parse_digits (show_N_go fuel n EmptyString) 0 = Some (Z.of_N n).
Proof.
  revert n. induction fuel as [|f IH]; intros n Hf; [lia|]. simpl.
  destruct (n <? 10)%N eqn:Hlt.
  - apply N.ltb_lt in Hlt. simpl. rewrite digit_char_value by done. done.
  - apply N.ltb_ge in Hlt.
    assert (Hdiv : (n / 10 < n)%N) by (apply N.div_lt; lia).
    rewrite show_N_go_app, parse_digits_app, IH by lia. simpl.
    rewrite digit_char_value by (apply N.mod_lt; lia).
    pose proof (N.div_mod n 10 ltac:(lia)) as Hdm.
    apply (f_equal Z.of_N) in Hdm. rewrite N2Z.inj_add, N2Z.inj_mul in Hdm.
    f_equal. lia.
Qed.

Lemma show_N_go_all_digits (fuel : nat) (n : N) (acc : string) :
  all_digits acc = true -> all_digits (show_N_go fuel n acc) = true.
Proof.
  revert n acc. induction fuel as [|f IH]; intros n acc Hacc; simpl; [done|].
  destruct (n <? 10)%N eqn:Hlt.
  - apply N.ltb_lt in Hlt. simpl. rewrite digit_char_value by done. done.
  - apply IH. simpl. rewrite digit_char_value by (apply N.mod_lt; lia). done.
Qed.

Lemma show_N_all_digits (n : N) : all_digits (show_N n) = true.
Proof. apply show_N_go_all_digits. done. Qed.

Lemma app_single_nonempty (x : string) (c : ascii) (y : string) :
  x +:+ String c y <> EmptyString.
Proof. destruct x; discriminate. Qed.

Lemma show_N_nonempty (n : N) : show_N n <> EmptyString.
Proof.
  unfold show_N. simpl. destruct (n <? 10)%N; [discriminate|].
  rewrite show_N_go_app. apply app_single_nonempty.
Qed.

Lemma show_N_parse (n : N) : parse_digits (show_N n) 0 = Some (Z.of_N n).
Proof. apply show_N_go_parse. lia. Qed.

Lemma all_digits_app (a b : string) :
  all_digits (a +:+ b) = all_digits a && all_digits b.
Proof.
  induction a as [|c a IH]; [done|]. rewrite Str.app_cons. simpl.
  destruct (digit_value c); [apply IH|done].
Qed.

Lemma all_digits_rev (s : string) : all_digits (String.rev s) = all_digits s.
Proof.
  induction s as [|c s IH]; [done|].
  rewrite Str.rev_cons, all_digits_app, IH. simpl.
  destruct (digit_value c); [apply andb_true_r|apply andb_false_r].
Qed.

Lemma all_digits_no_newline (s : string) :
  all_digits s = true -> no_newline s = true.
Proof.
  induction s as [|c s IH]; [done|]. simpl.
  destruct (digit_value c) eqn:E; [|done]. intros H.
  destruct (digit_char_facts c) as (_ & -> & _); [congruence|]. simpl. auto.
Qed.

Lemma rev_nonempty (s : string) : s <> EmptyString -> String.rev s <> EmptyString.
Proof.
  intros H E. apply H. rewrite <- (Str.rev_involutive s), E. done.
Qed.

Lemma trim_left_digit (c : ascii) (r : string) :
  digit_value c <> None -> trim_left (String c r) = String c r.
Proof.
  intros H. destruct (digit_char_facts c H) as (Hs & _ & _ & _ & H2 & H3).
  simpl. rewrite Hs. destruct r as [|b [|d r3]]; [done| |].
  - rewrite (proj1 (H2 b)). done.
  - rewrite (proj1 (H2 b)), (proj1 (H3 b d)). done.
Qed.

Lemma trim_left_rev_digit (c : ascii) (r : string) :
  digit_value c <> None -> trim_left_rev (String c r) = String c r.
Proof.
  intros H. destruct (digit_char_facts c H) as (Hs & _ & _ & _ & H2 & H3).
  simpl. rewrite Hs. destruct r as [|b [|a r3]]; [done| |].
  - rewrite (proj2 (H2 b)). done.
  - rewrite (proj2 (H2 b)), (proj2 (H3 a b)). done.
Qed.

Lemma digits_head (s : string) :
  all_digits s = true -> s <> EmptyString ->
  exists c r, s = String c r /\ digit_value c <> None.
Proof.
  destruct s as [|c r]; [done|]. simpl. intros H _.
  exists c, r. split; [done|]. destruct (digit_value c); done.
Qed.

Lemma TrimSpace_digits_crlf (s : string) :
  all_digits s = true -> s <> EmptyString -> TrimSpace (s +:+ crlf) = s.
Proof.
  intros Hd Hne. unfold TrimSpace.
  destruct (digits_head s Hd Hne) as (c & r & -> & Hc).
  rewrite Str.app_cons, trim_left_digit by done. rewrite <- Str.app_cons.
  unfold trim_right. rewrite Str.rev_app_distr.
  change (String.rev crlf) with (String LF (String CR EmptyString)).
  rewrite !Str.app_cons, Str.app_nil_l. simpl.
  assert (Hd' : all_digits (String.rev (String c r)) = true)
    by (rewrite all_digits_rev; done).
  destruct (digits_head _ Hd' (rev_nonempty (String c r) ltac:(discriminate)))
    as (c' & r' & Hrev & Hc').
  rewrite Hrev, trim_left_rev_digit by done. rewrite <- Hrev.
  apply Str.rev_involutive.
Qed.

Lemma Atoi_show_N (n : N) :
  Z.of_N n <= max_int -> Atoi (show_N n) = Some (Z.of_N n).
Proof.
  intros Hn. pose proof (show_N_parse n) as Hp.
  destruct (digits_head _ (show_N_all_digits n) (show_N_nonempty n))
    as (c & r & Hs & Hc).
  destruct (digit_char_facts c Hc) as (_ & _ & Hm & Hp' & _).
  unfold Atoi. rewrite Hs, Hm, Hp'. rewrite <- Hs, Hp.
  assert (E : (min_int <=? Z.of_N n) && (Z.of_N n <=? max_int) = true).
  { apply andb_true_intro. unfold min_int in *. split; apply Z.leb_le; lia. }
  rewrite E. done.
Qed.

Lemma ReadLine_app (l r : string) :
  no_newline l = true ->
  ReadLine (l +:+ String LF r) = Ok (l +:+ String LF EmptyString) r.
Proof.
  induction l as [|c l IH]; [done|]. simpl.
  intros [Hc Hl]%andb_prop. rewrite Str.app_cons. simpl.
  apply negb_true_iff in Hc. rewrite Hc, IH by done. done.
Qed.

Lemma ReadFull_app (a b : string) :
  ReadFull (Z.of_nat (String.length a)) (a +:+ b) = Ok a b.
Proof.
  unfold ReadFull. rewrite Str.length_app.
  assert (E : (Z.of_nat (String.length a + String.length b) <? Z.of_nat (String.length a)) = false)
    by (apply Z.ltb_ge; lia).
  rewrite E, Nat2Z.id, Str.substring_prefix.
  rewrite <- Str.length_app, Str.substring_suffix; [done|].
  rewrite Str.length_app. lia.
Qed.

Lemma maxAlloc_max_int : maxAlloc < max_int.
Proof. vm_compute. reflexivity. Qed.

Lemma wrap_int_small (z : Z) : min_int <= z <= max_int -> wrap_int z = z.
Proof.
  unfold wrap_int, min_int, max_int. intros Hz.
  rewrite Z.mod_small; lia.
Qed.

(** One bulk string: marker byte, a length line [L] that reads as [n],
    then [n] bytes and two more, which are dropped unread. *)
Lemma parseBulkString_spec (m : ascii) (L : string) (n : Z) (body : string)
    (t1 t2 : ascii) (rest : string) :
  no_newline L = true ->
  Atoi (TrimSpace (L +:+ String LF EmptyString)) = Some n ->
  0 <= n -> n + 2 <= maxAlloc ->
  Z.of_nat (String.length body) = n ->
  parseBulkString (String m (L +:+ String LF (body +:+ String t1 (String t2 rest))))
  = Ok body rest.
Proof.
  intros HL HA Hn Hmax Hlen. unfold parseBulkString. simpl.
  rewrite ReadLine_app by done. simpl. rewrite HA.
  assert (E1 : (n <? 0) = false) by (apply Z.ltb_ge; lia). rewrite E1.
  pose proof maxAlloc_max_int as Hlim.
  rewrite wrap_int_small by (unfold min_int; lia).
  assert (E2 : make_bytes_ok (n + 2) = true)
    by (apply andb_true_intro; split; apply Z.leb_le; lia). rewrite E2.
  simpl.
  replace (body +:+ String t1 (String t2 rest))
    with ((body +:+ String t1 (String t2 EmptyString)) +:+ rest)
    by (rewrite Str.app_assoc; done).
  replace (n + 2)
    with (Z.of_nat (String.length (body +:+ String t1 (String t2 EmptyString))))
    by (rewrite Str.length_app; simpl; lia).
  rewrite ReadFull_app. simpl.
  replace (Z.to_nat n) with (String.length body) by lia.
  rewrite Str.substring_prefix. done.
Qed.

(** One step of the array loop on a bulk-string element. *)
Lemma parse_elements_step (f : nat) (count : Z) (L : string) (n : Z) (body : string)
    (t1 t2 : ascii) (rest : string) :
  0 < count ->
  no_newline L = true ->
  Atoi (TrimSpace (L +:+ String LF EmptyString)) = Some n ->
  0 <= n -> n + 2 <= maxAlloc ->
  Z.of_nat (String.length body) = n ->
  parse_elements (S f) count
    ("$" +:+ L +:+ String LF (body +:+ String t1 (String t2 rest)))
  = bind (parse_elements f (count - 1) rest) (fun xs s => Ok (body :: xs) s).
Proof.
  intros Hc HL HA Hn Hmax Hlen. simpl.
  assert (E : (count <=? 0) = false) by (apply Z.leb_gt; lia). rewrite E.
  simpl. change ("$" +:+ L +:+ ?Y) with (String "$"%char (L +:+ Y)).
  rewrite (parseBulkString_spec "$"%char L n) by done. done.
Qed.

Lemma no_newline_app (a b : string) :
  no_newline (a +:+ b) = no_newline a && no_newline b.
Proof.
  induction a as [|c a IH]; [done|]. rewrite Str.app_cons. simpl.
  rewrite IH, andb_assoc. done.
Qed.

(** The encoded length line of [writeBulkString] and [writeArray]. *)
Lemma show_int_nat (k : nat) : show_int (Z.of_nat k) = show_N (N.of_nat k).
Proof.
  unfold show_int. assert (E : (Z.of_nat k <? 0) = false) by (apply Z.ltb_ge; lia).
  rewrite E. f_equal. lia.
Qed.

Lemma length_line_spec (k : nat) :
  Z.of_nat k <= max_int ->
  no_newline (show_int (Z.of_nat k) +:+ String CR EmptyString) = true
  /\ Atoi (TrimSpace ((show_int (Z.of_nat k) +:+ String CR EmptyString)
                      +:+ String LF EmptyString)) = Some (Z.of_nat k).
Proof.
  intros Hk. rewrite show_int_nat. split.
  - rewrite no_newline_app, all_digits_no_newline by apply show_N_all_digits.
    done.
  - rewrite Str.app_assoc.
    change (String CR EmptyString +:+ String LF EmptyString) with crlf.
    rewrite TrimSpace_digits_crlf by (apply show_N_all_digits || apply show_N_nonempty).
    rewrite Atoi_show_N by lia. f_equal. lia.
Qed.

Lemma writeBulkString_app (t rest : string) :
  writeBulkString t +:+ rest =
  "$" +:+ (show_int (Z.of_nat (String.length t)) +:+ String CR EmptyString)
      +:+ String LF (t +:+ String CR (String LF rest)).
Proof.
  unfold writeBulkString. rewrite !Str.app_assoc. done.
Qed.

Lemma write_elements_length (toks : list string) :
  (length toks <= String.length (write_elements toks))%nat.
Proof.
  induction toks as [|t toks IH]; simpl; [lia|].
  rewrite Str.length_app. unfold writeBulkString. simpl. lia.
Qed.

(** The array loop decodes what [write_elements] encodes. *)
Lemma parse_elements_write (toks : list string) (f : nat) (rest : string) :
  (length toks <= f)%nat ->
  Forall (fun t => Z.of_nat (String.length t) + 2 <= maxAlloc) toks ->
  parse_elements f (Z.of_nat (length toks)) (write_elements toks +:+ rest)
  = Ok toks rest.
Proof.
  revert f. induction toks as [|t toks IH]; intros f Hf Hall.
  - destruct f; done.
  - destruct f as [|f]; simpl in Hf; [lia|].
    apply Forall_cons in Hall as [Ht Hall].
    assert (Hk : Z.of_nat (String.length t) <= max_int)
      by (pose proof maxAlloc_max_int; lia).
    destruct (length_line_spec (String.length t) Hk) as [HL HA].
    simpl write_elements. rewrite Str.app_assoc, writeBulkString_app.
    rewrite (parse_elements_step f _ _ (Z.of_nat (String.length t)));
      [|simpl; lia|done|done|lia|done|done].
    replace (Z.of_nat (length (t :: toks)) - 1) with (Z.of_nat (length toks))
      by (simpl; lia).
    rewrite IH by (done || lia). done.
Qed.

(** The fuel of the array loop: every element consumes bytes, so any
    fuel above the length of the stream gives the same result. *)
Lemma substring_length_le (n m : nat) (s : string) :
  (String.length (substring n m s) <= String.length s)%nat.
Proof.
  revert n m. induction s as [|c s IH]; intros [|n] [|m]; simpl; try lia.
  - specialize (IH 0%nat m). lia.
  - specialize (IH n 0%nat). lia.
  - specialize (IH n (S m)). lia.
Qed.

Lemma ReadLine_length (s l s' : string) :
  ReadLine s = Ok l s' -> (String.length s' < String.length s)%nat.
Proof.
  revert l. induction s as [|c s IH]; intros l; simpl; [discriminate|].
  destruct (Ascii.eqb c LF).
  - intros [= _ <-]. lia.
  - destruct (ReadLine s) as [l0 r0| |] eqn:E; simpl; try discriminate.
    intros [= _ <-]. specialize (IH l0 eq_refl). lia.
Qed.

Lemma ReadFull_length (n : Z) (s b s' : string) :
  ReadFull n s = Ok b s' -> (String.length s' <= String.length s)%nat.
Proof.
  unfold ReadFull. destruct (_ <? n); [destruct (_ =? 0)%nat; discriminate|].
  intros [= _ <-]. apply substring_length_le.
Qed.

Lemma parseBulkString_length (s x s' : string) :
  parseBulkString s = Ok x s' -> (String.length s' < String.length s)%nat.
Proof.
  unfold parseBulkString. destruct s as [|c s1]; simpl; [discriminate|].
  destruct (ReadLine s1) as [l s2| |] eqn:E; simpl; try discriminate.
  apply ReadLine_length in E.
  destruct (Atoi (TrimSpace l)) as [len|]; [|discriminate].
  destruct (len <? 0); [intros [= _ <-]; lia|].
  destruct (negb _); [discriminate|].
  destruct (ReadFull _ s2) as [buf s3| |] eqn:F; simpl; try discriminate.
  apply ReadFull_length in F. intros [= _ <-]. lia.
Qed.

Lemma parse_elements_fuel (f1 f2 : nat) (count : Z) (s : string) :
  (String.length s < f1)%nat -> (String.length s < f2)%nat ->
  parse_elements f1 count s = parse_elements f2 count s.
Proof.
  revert f2 count s. induction f1 as [|f1 IH]; intros f2 count s H1 H2; [lia|].
  destruct f2 as [|f2]; [lia|]. simpl.
  destruct (count <=? 0); [done|].
  destruct s as [|b s0]; [done|]. simpl.
  destruct (negb _); [done|].
  destruct (parseBulkString (String b s0)) as [x s'| |] eqn:P; simpl; try done.
  apply parseBulkString_length in P. simpl in H1, H2, P.
  rewrite (IH f2) by lia. done.
Qed.

End CodecFacts.

(* ------------------------------------------------------------------ *)
(** ** C7: array frames round trip *)

(** C7: decoding [writeArray toks], followed by any further bytes,
    gives back [toks] exactly and leaves the further bytes unread, for
    every token list, tokens with CRLF bytes included, within the
    allocation limit of the decoder: at most [2^44] tokens (the result
    slice) and tokens of at most [2^48 - 2] bytes (each buffer holds the
    token and two more bytes). Beyond that limit the decoder panics. *)
Theorem C7_array_roundtrip (toks : list string) (rest : string) :
  16 * Z.of_nat (length toks) <= maxAlloc ->
  Forall (fun t => Z.of_nat (String.length t) + 2 <= maxAlloc) toks ->
  parseRESP (writeArray toks +:+ rest) = Ok toks rest.
Proof.
  intros Hn Hall.
  assert (Hk : Z.of_nat (length toks) <= max_int)
    by (pose proof CodecFacts.maxAlloc_max_int; lia).
  destruct (CodecFacts.length_line_spec (length toks) Hk) as [HL HA].
  unfold writeArray. rewrite !Str.app_assoc.
  change (crlf +:+ ?Y) with (String CR EmptyString +:+ String LF Y).
  rewrite <- (Str.app_assoc (show_int _) (String CR EmptyString)).
  change ("*" +:+ ?Y) with (String "*"%char Y).
  unfold parseRESP. simpl.
  unfold parseArray. rewrite CodecFacts.ReadLine_app by done. cbn [bind].
  rewrite HA.
  assert (E : (Z.of_nat (length toks) <? 0) = false) by (apply Z.ltb_ge; lia).
  assert (E' : make_strings_ok (Z.of_nat (length toks)) = true) by (apply Z.leb_le; lia).
  rewrite E, E'. apply CodecFacts.parse_elements_write; [|done].
  rewrite Str.length_app. pose proof (CodecFacts.write_elements_length toks). lia.
Qed.

Lemma C7_array_roundtrip_witness :
  parseRESP (writeArray ["SET"; "a" +:+ crlf +:+ "b"; EmptyString] +:+ "tail")
  = Ok ["SET"; "a" +:+ crlf +:+ "b"; EmptyString] "tail".
Proof.
  apply C7_array_roundtrip.
  - unfold maxAlloc. simpl. lia.
  - repeat constructor; unfold maxAlloc; simpl; lia.
Defined.

(* ------------------------------------------------------------------ *)
(** ** C10: the two bytes after a bulk string's body *)

(** C10: inside an array frame, a bulk-string element whose length line
    [L] reads as [n >= 0] consumes exactly [n + 2] bytes after that line
    and yields the first [n] of them; the last two bytes [t1], [t2] are
    any bytes, not only CR LF, and the loop goes on right after them
    (lengths for which the buffer of [n + 2] bytes is within [maxAlloc];
    above it the decoder panics after the length line). *)
Theorem C10_trailing_bytes_unchecked (f : nat) (count : Z) (L : string) (n : Z)
    (body : string) (t1 t2 : ascii) (rest : string) :
  0 < count ->
  no_newline L = true ->
  Atoi (TrimSpace (L +:+ String LF EmptyString)) = Some n ->
  0 <= n -> n + 2 <= maxAlloc ->
  Z.of_nat (String.length body) = n ->
  parse_elements (S f) count
    ("$" +:+ L +:+ String LF (body +:+ String t1 (String t2 rest)))
  = bind (parse_elements f (count - 1) rest) (fun xs s => Ok (body :: xs) s).
Proof. apply CodecFacts.parse_elements_step. Qed.

Lemma C10_trailing_bytes_unchecked_witness :
  parse_elements 1 1 ("$" +:+ ("3" +:+ String CR EmptyString) +:+ String LF
                        ("foo" +:+ String "x"%char (String "y"%char "rest")))
  = Ok ["foo"] "rest".
Proof.
  rewrite (C10_trailing_bytes_unchecked 0 1 ("3" +:+ String CR EmptyString) 3).
  - reflexivity.
  - lia.
  - reflexivity.
  - vm_compute. reflexivity.
  - lia.
  - unfold maxAlloc. lia.
  - reflexivity.
Defined.

(* ------------------------------------------------------------------ *)
(** ** Further properties of the dispatcher *)

Module DispatchFacts.

Lemma foldl_delete_lookup (keys : list string) (m : gmap string string) (k : string) :
  foldl (fun m key => delete key m) m keys !! k =
  if decide (k ∈ keys) then None else m !! k.
Proof.
  revert m. induction keys as [|k0 keys IH]; intros m; simpl.
  - destruct (decide (k ∈ [])) as [Hin|]; [set_solver|done].
  - rewrite IH. destruct (decide (k ∈ keys)) as [Hk|Hk].
    + rewrite decide_True by set_solver. done.
    + destruct (decide (k = k0)) as [->|Hne].
      * rewrite decide_True by set_solver. apply lookup_delete_eq.
      * rewrite decide_False by set_solver. apply lookup_delete_ne. congruence.
Qed.

End DispatchFacts.

(** Only [SET] and [DEL] change the key-value map, [SET] by adding a
    key that was missing and [DEL] by removing the listed keys; only
    [CONFIG SET] changes the config map, by an upsert. *)
Theorem X_state_effects rc (c : string) (args : list string) (r : FluxDB) :
  let r' := snd (processCommand rc (c :: args) r) in
  (data r' = data r
   \/ (ToUpper (unicode_upper rc) c = "SET" /\ exists k v rest, args = k :: v :: rest /\
         data r !! k = None /\ data r' = <[k := v]> (data r))
   \/ (ToUpper (unicode_upper rc) c = "DEL" /\ data r' = foldl (fun m key => delete key m) (data r) args))
  /\
  (config r' = config r
   \/ (ToUpper (unicode_upper rc) c = "CONFIG" /\ exists sub name value rest,
         args = sub :: name :: value :: rest /\ ToUpper (unicode_upper rc) sub = "SET" /\
         config r' = <[name := value]> (config r))).
Proof.
  simpl. eqb_cases; destruct args as [|a [|b [|d rest]]]; simpl; eqb_cases;
    unfold Set_; rewrite ?del_keys_spec; simpl;
    try (split; left; reflexivity).
  all: try (destruct (data r !! a) eqn:E; simpl;
            [split; left; reflexivity
            |split; [right; left; split; [done|]; eexists _, _, _; split; [reflexivity|];
                     split; [done|reflexivity]
                    |left; reflexivity]]).
  all: try (split; [right; right; split; [done|reflexivity]|left; reflexivity]).
  all: split; [left; reflexivity|right; split; [done|]];
       eexists _, _, _, _; split; [reflexivity|]; split; [done|reflexivity].
Qed.

(** Verbs are case-insensitive: two verb tokens with the same upper-case
    form give the same reply and the same state, for any arguments. *)
Theorem X_verb_case_insensitive rc (c1 c2 : string) (args : list string) (r : FluxDB) :
  ToUpper (unicode_upper rc) c1 = ToUpper (unicode_upper rc) c2 ->
  processCommand rc (c1 :: args) r = processCommand rc (c2 :: args) r.
Proof. intros H. simpl. rewrite H. reflexivity. Qed.

Lemma X_verb_case_insensitive_witness :
  processCommand example_rt ["sEt"; "k"; "v"] New
  = processCommand example_rt ["SET"; "k"; "v"] New.
Proof. apply X_verb_case_insensitive. reflexivity. Defined.

(** The CONFIG subcommand is case-insensitive as well. *)
Theorem X_config_sub_case_insensitive rc (c s1 s2 : string) (rest : list string)
    (r : FluxDB) :
  ToUpper (unicode_upper rc) c = "CONFIG" -> ToUpper (unicode_upper rc) s1 = ToUpper (unicode_upper rc) s2 ->
  processCommand rc (c :: s1 :: rest) r = processCommand rc (c :: s2 :: rest) r.
Proof. intros Hc H. simpl. rewrite Hc. simpl. rewrite H. reflexivity. Qed.

Lemma X_config_sub_case_insensitive_witness :
  processCommand example_rt ["config"; "get"; "port"] New
  = processCommand example_rt ["config"; "GET"; "port"] New.
Proof. apply X_config_sub_case_insensitive; reflexivity. Defined.

(** Every non-empty command gets a reply, and the reply starts with one
    of the five RESP type markers [+ - : $ *]. *)
Theorem X_reply_is_frame rc (cmd : list string) (r : FluxDB) :
  cmd <> [] ->
  exists m body, fst (processCommand rc cmd r) = String m body /\
                 In m ["+"; "-"; ":"; "$"; "*"]%char.
Proof.
  intros Hne. destruct cmd as [|c args]; [done|]. simpl.
  eqb_cases; destruct args as [|a [|b [|d rest]]]; simpl; eqb_cases;
    unfold Set_; rewrite ?del_keys_spec;
    try destruct (data r !! a); simpl;
    eexists _, _; (split; [reflexivity|simpl; tauto]).
Qed.

Lemma X_reply_is_frame_witness :
  exists m body, fst (processCommand example_rt ["FLUSHALL"] New) = String m body /\
                 In m ["+"; "-"; ":"; "$"; "*"]%char.
Proof. apply X_reply_is_frame. discriminate. Defined.

(** After [DEL k0 ks...], [GET k] replies [$3\r\nnil\r\n] for every
    listed key and replies as before for every other key. *)
Theorem X_del_then_get rc (r : FluxDB) (k0 : string) (ks : list string) (k : string) :
  fst (processCommand rc ["GET"; k] (snd (processCommand rc ("DEL" :: k0 :: ks) r)))
  = if decide (k ∈ k0 :: ks) then "$3" +:+ crlf +:+ "nil" +:+ crlf
    else fst (processCommand rc ["GET"; k] r).
Proof.
  simpl. rewrite del_keys_spec. simpl. unfold Get. simpl.
  rewrite DispatchFacts.foldl_delete_lookup.
  destruct (decide (k ∈ ks)) as [Hk|Hk].
  - rewrite decide_True by set_solver. reflexivity.
  - destruct (decide (k = k0)) as [->|Hne].
    + rewrite decide_True by set_solver. rewrite lookup_delete_eq. reflexivity.
    + rewrite decide_False by set_solver. rewrite lookup_delete_ne by congruence.
      reflexivity.
Qed.

(** [CONFIG SET name value] then [CONFIG GET name] (name other than [*])
    replies with the pair [(name, value)], except that an empty value
    gives the empty array. *)
Theorem X_config_set_then_get rc (r : FluxDB) (name value : string) :
  name <> "*" ->
  fst (processCommand rc ["CONFIG"; "GET"; name]
         (snd (processCommand rc ["CONFIG"; "SET"; name; value] r)))
  = writeArray (if String.eqb value "" then [] else [name; value]).
Proof.
  intros Hn. simpl. unfold config_get.
  destruct (String.eqb_spec name "*") as [->|_]; [done|].
  unfold GetConfig. simpl. rewrite lookup_insert_eq.
  destruct (String.eqb value ""); reflexivity.
Qed.

Lemma X_config_set_then_get_witness :
  fst (processCommand example_rt ["CONFIG"; "GET"; "timeout"]
         (snd (processCommand example_rt ["CONFIG"; "SET"; "timeout"; "30"] New)))
  = writeArray ["timeout"; "30"].
Proof. apply (X_config_set_then_get example_rt New "timeout" "30"). discriminate. Defined.

(* ------------------------------------------------------------------ *)
(** ** Lemmas on the decoder and the connection loop *)

Module LoopFacts.

Lemma parse_elements_length (f : nat) (count : Z) (s s' : string) (xs : list string) :
  parse_elements f count s = Ok xs s' -> (String.length s' <= String.length s)%nat.
Proof.
  revert count s xs. induction f as [|f IH]; intros count s xs; simpl.
  - destruct (count <=? 0); [intros [= _ <-]; lia|discriminate].
  - destruct (count <=? 0); [intros [= _ <-]; lia|].
    destruct s as [|b s0]; simpl; [discriminate|].
    destruct (negb _); [discriminate|].
    destruct (parseBulkString (String b s0)) as [x s1| |] eqn:P; simpl; try discriminate.
    apply CodecFacts.parseBulkString_length in P.
    destruct (parse_elements f (count - 1) s1) as [ys s2| |] eqn:E; simpl; try discriminate.
    intros [= _ <-]. apply IH in E. simpl in P. lia.
Qed.

Lemma parseRESP_length (s s' : string) (toks : list string) :
  parseRESP s = Ok toks s' -> (String.length s' < String.length s)%nat.
Proof.
  unfold parseRESP. destruct s as [|b s0]; cbn [ReadByte bind]; [discriminate|].
  simpl String.length.
  destruct (Ascii.eqb b "*"%char); [|destruct (Ascii.eqb b "$"%char)].
  - unfold parseArray.
    destruct (ReadLine s0) as [l s1| |] eqn:E; cbn [bind]; try discriminate.
    apply CodecFacts.ReadLine_length in E.
    destruct (Atoi (TrimSpace l)) as [c|]; [|discriminate].
    destruct (c <? 0); [intros [= _ <-]; lia|].
    destruct (negb _); [discriminate|].
    intros H. apply parse_elements_length in H. lia.
  - destruct (parseBulkString s0) as [x s1| |] eqn:P; cbn [bind]; try discriminate.
    apply CodecFacts.parseBulkString_length in P. intros [= _ <-]. lia.
  - destruct (ReadLine s0) as [l s1| |] eqn:E; cbn [bind]; try discriminate.
    apply CodecFacts.ReadLine_length in E. intros [= _ <-]. lia.
Qed.

Lemma handle_go_fuel rc (f1 f2 : nat) (s : string) (r : FluxDB) :
  (String.length s < f1)%nat -> (String.length s < f2)%nat ->
  handle_go rc f1 s r = handle_go rc f2 s r.
Proof.
  revert f2 s r. induction f1 as [|f1 IH]; intros f2 s r H1 H2; [lia|].
  destruct f2 as [|f2]; [lia|]. cbn [handle_go].
  destruct (parseRESP s) as [cmd s'| |] eqn:P; [|done|done].
  apply parseRESP_length in P.
  destruct cmd as [|c args].
  - apply IH; lia.
  - destruct (processCommand rc (c :: args) r) as [reply r1].
    rewrite (IH f2 s' r1) by lia. done.
Qed.

(** One turn of the connection loop. *)
Lemma HandleConnection_step rc (s s' : string) (cmd : list string) (r : FluxDB) :
  parseRESP s = Ok cmd s' ->
  HandleConnection rc s r =
  match cmd with
  | [] => HandleConnection rc s' r
  | _ => let '(reply, r1) := processCommand rc cmd r in
         let '(out, r2, fin) := HandleConnection rc s' r1 in (reply +:+ out, r2, fin)
  end.
Proof.
  intros P. pose proof (parseRESP_length _ _ _ P) as Hl.
  unfold HandleConnection at 1. cbn [handle_go]. rewrite P.
  destruct cmd as [|c args].
  - apply handle_go_fuel; lia.
  - destruct (processCommand rc (c :: args) r) as [reply r1].
    unfold HandleConnection.
    rewrite (handle_go_fuel rc (String.length s) (S (String.length s'))) by lia. done.
Qed.

Lemma HandleConnection_fail rc (s : string) (e : read_error) (r : FluxDB) :
  parseRESP s = Fail e -> HandleConnection rc s r = (EmptyString, r, Fail e).
Proof. intros P. unfold HandleConnection. cbn [handle_go]. rewrite P. done. Qed.

Lemma writeArray_parse (toks : list string) (rest : string) :
  encodable toks -> parseRESP (writeArray toks +:+ rest) = Ok toks rest.
Proof.
  intros [Hn Hall].
  assert (Hk : Z.of_nat (length toks) <= max_int)
    by (pose proof CodecFacts.maxAlloc_max_int; lia).
  destruct (CodecFacts.length_line_spec (length toks) Hk) as [HL HA].
  unfold writeArray. rewrite !Str.app_assoc.
  change (crlf +:+ ?Y) with (String CR EmptyString +:+ String LF Y).
  rewrite <- (Str.app_assoc (show_int _) (String CR EmptyString)).
  change ("*" +:+ ?Y) with (String "*"%char Y).
  unfold parseRESP. simpl.
  unfold parseArray. rewrite CodecFacts.ReadLine_app by done. cbn [bind].
  rewrite HA.
  assert (E : (Z.of_nat (length toks) <? 0) = false) by (apply Z.ltb_ge; lia).
  assert (E' : make_strings_ok (Z.of_nat (length toks)) = true) by (apply Z.leb_le; lia).
  rewrite E, E'. apply CodecFacts.parse_elements_write; [|done].
  rewrite Str.length_app. pose proof (CodecFacts.write_elements_length toks). lia.
Qed.

Lemma concat_strings_cons (x : string) (l : list string) :
  concat_strings (x :: l) = x +:+ concat_strings l.
Proof. reflexivity. Qed.

Lemma encode_commands_cons (cmd : list string) (cmds : list (list string)) :
  encode_commands (cmd :: cmds) = writeArray cmd +:+ encode_commands cmds.
Proof. reflexivity. Qed.

(** The connection loop on pipelined array frames followed by [t]. *)
Lemma handle_encoded rc (cmds : list (list string)) (t : string) (r : FluxDB) :
  Forall encodable cmds ->
  HandleConnection rc (encode_commands cmds +:+ t) r =
  let '(replies, r1) := process_all rc cmds r in
  let '(out, r2, fin) := HandleConnection rc t r1 in
  (concat_strings replies +:+ out, r2, fin).
Proof.
  revert r. induction cmds as [|cmd cmds IH]; intros r Hall.
  - change (encode_commands [] +:+ t) with t. cbn [process_all].
    destruct (HandleConnection rc t r) as [[out r2] fin]. done.
  - apply Forall_cons in Hall as [Hc Hall].
    rewrite encode_commands_cons, Str.app_assoc.
    rewrite (HandleConnection_step rc _ _ cmd r (writeArray_parse cmd _ Hc)).
    cbn [process_all].
    destruct cmd as [|c args].
    + cbn [processCommand]. rewrite IH by done.
      destruct (process_all rc cmds r) as [replies r2].
      destruct (HandleConnection rc t r2) as [[out r3] fin]. done.
    + destruct (processCommand rc (c :: args) r) as [reply r1].
      rewrite IH by done.
      destruct (process_all rc cmds r1) as [replies r2].
      destruct (HandleConnection rc t r2) as [[out r3] fin].
      rewrite concat_strings_cons, Str.app_assoc. done.
Qed.

(** The array loop after the elements of [write_elements toks]: more
    elements announced than written are read from what follows. *)
Lemma parse_elements_write_more (toks : list string) (f : nat) (c : Z) (rest : string) :
  (length toks <= f)%nat -> 0 < c ->
  Forall (fun t => Z.of_nat (String.length t) + 2 <= maxAlloc) toks ->
  parse_elements f (Z.of_nat (length toks) + c) (write_elements toks +:+ rest)
  = bind (parse_elements (f - length toks) c rest) (fun xs s => Ok (toks ++ xs) s).
Proof.
  revert f. induction toks as [|t toks IH]; intros f Hf Hc Hall.
  - simpl. rewrite Nat.sub_0_r. replace (Z.of_nat 0 + c) with c by lia.
    change ("" +:+ rest) with rest. destruct (parse_elements f c rest); done.
  - destruct f as [|f]; simpl in Hf; [lia|].
    apply Forall_cons in Hall as [Ht Hall].
    assert (Hk : Z.of_nat (String.length t) <= max_int)
      by (pose proof CodecFacts.maxAlloc_max_int; lia).
    destruct (CodecFacts.length_line_spec (String.length t) Hk) as [HL HA].
    simpl write_elements. rewrite Str.app_assoc, CodecFacts.writeBulkString_app.
    rewrite (CodecFacts.parse_elements_step f _ _ (Z.of_nat (String.length t)));
      [|simpl; lia|done|done|lia|done|done].
    replace (Z.of_nat (length (t :: toks)) + c - 1) with (Z.of_nat (length toks) + c)
      by (simpl; lia).
    rewrite IH by (done || lia). simpl length.
    replace (S f - S (length toks))%nat with (f - length toks)%nat by lia.
    destruct (parse_elements (f - length toks) c rest); done.
Qed.

(** An array frame whose count line is [show_int k]. *)
Lemma parse_array_header (k : nat) (body : string) :
  16 * Z.of_nat k <= maxAlloc ->
  parseRESP ("*" +:+ show_int (Z.of_nat k) +:+ crlf +:+ body)
  = parse_elements (S (String.length body)) (Z.of_nat k) body.
Proof.
  intros H16.
  assert (Hk : Z.of_nat k <= max_int)
    by (pose proof CodecFacts.maxAlloc_max_int; lia).
  destruct (CodecFacts.length_line_spec k Hk) as [HL HA].
  change (crlf +:+ ?Y) with (String CR EmptyString +:+ String LF Y).
  rewrite <- (Str.app_assoc (show_int _) (String CR EmptyString)).
  change ("*" +:+ ?Y) with (String "*"%char Y).
  unfold parseRESP. cbn [ReadByte bind]. simpl Ascii.eqb. cbv iota.
  unfold parseArray. rewrite CodecFacts.ReadLine_app by done. cbn [bind].
  rewrite HA.
  assert (E : (Z.of_nat k <? 0) = false) by (apply Z.ltb_ge; lia).
  assert (E' : make_strings_ok (Z.of_nat k) = true) by (apply Z.leb_le; lia).
  rewrite E, E'. done.
Qed.

Lemma has_ascii_space_app (a b : string) :
  has_ascii_space (a +:+ b) = has_ascii_space a || has_ascii_space b.
Proof.
  induction a as [|c a IH]; [done|]. rewrite Str.app_cons. simpl.
  rewrite IH, orb_assoc. done.
Qed.

Lemma has_ascii_space_rev (s : string) :
  has_ascii_space (String.rev s) = has_ascii_space s.
Proof.
  induction s as [|c s IH]; [done|]. rewrite Str.rev_cons, has_ascii_space_app, IH.
  simpl. rewrite orb_false_r, orb_comm. done.
Qed.

Lemma flush_ok (cur : string) (l : list string) :
  has_ascii_space cur = false ->
  Forall (fun t => t <> EmptyString /\ has_ascii_space t = false) l ->
  Forall (fun t => t <> EmptyString /\ has_ascii_space t = false) (flush cur l).
Proof.
  intros Hc Hl. destruct cur as [|a cur]; [done|]. simpl flush.
  constructor; [|done]. split.
  - apply CodecFacts.rev_nonempty. discriminate.
  - rewrite has_ascii_space_rev. done.
Qed.

(** [strings.Fields] only returns non-empty fields without ASCII
    spaces. *)
Lemma fields_go_ok (n : nat) (s cur : string) :
  (String.length s <= n)%nat -> has_ascii_space cur = false ->
  Forall (fun t => t <> EmptyString /\ has_ascii_space t = false) (fields_go cur s).
Proof.
  revert s cur. induction n as [|n IH]; intros s cur Hl Hc;
    (destruct s as [|a r]; simpl in Hl; [apply flush_ok; [done|constructor]|]); [lia|].
  simpl. destruct (is_ascii_space a) eqn:Ha.
  { apply flush_ok; [done|]. apply IH; [lia|done]. }
  assert (Hc' : has_ascii_space (String a cur) = false) by (simpl; rewrite Ha; done).
  destruct r as [|b r2]; [apply IH; [simpl; lia|done]|].
  destruct (is_space2 a b).
  { apply flush_ok; [done|]. apply IH; [simpl in Hl; lia|done]. }
  destruct r2 as [|c r3]; [apply IH; [simpl in Hl |- *; lia|done]|].
  destruct (is_space3 a b c).
  { apply flush_ok; [done|]. apply IH; [simpl in Hl; lia|done]. }
  apply IH; [simpl in Hl |- *; lia|done].
Qed.

Lemma Atoi_range (s : string) (z : Z) :
  Atoi s = Some z -> min_int <= z <= max_int.
Proof.
  unfold Atoi.
  lazymatch goal with |- context [match ?m with pair _ _ => _ end] =>
    destruct m as [neg ds] end.
  destruct ds as [|c ds]; [discriminate|].
  destruct (parse_digits _ 0) as [v|]; [|discriminate].
  destruct ((min_int <=? _) && (_ <=? max_int)) eqn:E; [|discriminate].
  intros [= <-]. apply andb_prop in E as [E1 E2].
  apply Z.leb_le in E1, E2. lia.
Qed.

(** [make([]byte, length + 2)] for a length read by [Atoi] whose size
    is above [maxAlloc], also when the addition wraps around. *)
Lemma make_bytes_too_large (z : Z) :
  maxAlloc < z <= max_int + 2 -> make_bytes_ok (wrap_int z) = false.
Proof.
  intros Hz. pose proof CodecFacts.maxAlloc_max_int as Hlim.
  assert (H0 : 0 <= maxAlloc) by (unfold maxAlloc; lia).
  unfold make_bytes_ok.
  destruct (Z.le_gt_cases z max_int) as [Hle|Hgt].
  - rewrite CodecFacts.wrap_int_small by (unfold min_int; lia).
    replace (z <=? maxAlloc) with false by (symmetry; apply Z.leb_gt; lia).
    apply andb_false_r.
  - unfold wrap_int, max_int in *.
    assert (P63 : 2 ^ 63 = 9223372036854775808) by reflexivity.
    assert (P64 : 2 ^ 64 = 18446744073709551616) by reflexivity.
    rewrite P63 in *. rewrite P64.
    rewrite <- (Z.mod_unique (z + 9223372036854775808) 18446744073709551616 1
               (z + 9223372036854775808 - 18446744073709551616));
      [| left; lia | lia].
    replace (0 <=? _) with false by (symmetry; apply Z.leb_gt; lia).
    done.
Qed.

End LoopFacts.

(* ------------------------------------------------------------------ *)
(** ** Further properties of the decoder and the connection loop *)

(** Every unit [parseRESP] decodes consumes at least one byte of the
    stream. *)
Theorem X_parseRESP_consumes (s s' : string) (toks : list string) :
  parseRESP s = Ok toks s' -> (String.length s' < String.length s)%nat.
Proof. apply LoopFacts.parseRESP_length. Qed.

Lemma X_parseRESP_consumes_witness :
  parseRESP ("PING" +:+ crlf +:+ "x") = Ok ["PING"] "x"
  /\ (String.length "x" < String.length ("PING" +:+ crlf +:+ "x"))%nat.
Proof.
  split; [reflexivity|].
  apply (X_parseRESP_consumes _ _ ["PING"]). reflexivity.
Defined.

(** Nothing is decoded from bytes without a newline: whatever the first
    byte, the decoder reports [io.EOF]. *)
Theorem X_no_newline_no_frame (s : string) :
  no_newline s = true -> parseRESP s = Fail EOF.
Proof.
  assert (RL : forall u, no_newline u = true -> ReadLine u = Fail EOF).
  { induction u as [|c u IH]; [done|]. simpl.
    intros [Hc Hu]%andb_prop. apply negb_true_iff in Hc. rewrite Hc, IH by done. done. }
  intros Hs. destruct s as [|b s0]; [done|].
  simpl in Hs. apply andb_prop in Hs as [_ Hs].
  unfold parseRESP. cbn [ReadByte bind].
  destruct (Ascii.eqb b "*"%char); [|destruct (Ascii.eqb b "$"%char)].
  - unfold parseArray. rewrite RL by done. done.
  - unfold parseBulkString. destruct s0 as [|c s1]; [done|]. cbn [ReadByte bind].
    simpl in Hs. apply andb_prop in Hs as [_ Hs]. rewrite RL by done. done.
  - rewrite RL by done. done.
Qed.

Lemma X_no_newline_no_frame_witness :
  parseRESP ("SET k v" +:+ String CR EmptyString) = Fail EOF.
Proof. apply X_no_newline_no_frame. reflexivity. Defined.

(** A bulk string whose body and trailer are cut short (fewer than
    [n + 2] bytes after the length line) is an error, [io.EOF] when no
    byte is left and [io.ErrUnexpectedEOF] otherwise; no partial value is
    returned. *)
Theorem X_bulk_truncated (m : ascii) (L body : string) (n : Z) :
  no_newline L = true ->
  Atoi (TrimSpace (L +:+ String LF EmptyString)) = Some n ->
  0 <= n -> n + 2 <= maxAlloc ->
  Z.of_nat (String.length body) < n + 2 ->
  parseBulkString (String m (L +:+ String LF body))
  = Fail (if (String.length body =? 0)%nat then EOF else ErrUnexpectedEOF).
Proof.
  intros HL HA Hn Hmax Hb. unfold parseBulkString. cbn [ReadByte bind].
  rewrite CodecFacts.ReadLine_app by done. cbn [bind]. rewrite HA.
  assert (E1 : (n <? 0) = false) by (apply Z.ltb_ge; lia). rewrite E1.
  pose proof CodecFacts.maxAlloc_max_int as Hlim.
  rewrite CodecFacts.wrap_int_small by (unfold min_int; lia).
  assert (E2 : make_bytes_ok (n + 2) = true)
    by (apply andb_true_intro; split; apply Z.leb_le; lia). rewrite E2.
  cbn [negb]. unfold ReadFull.
  assert (E3 : (Z.of_nat (String.length body) <? n + 2) = true) by (apply Z.ltb_lt; lia).
  rewrite E3. destruct (String.length body =? 0)%nat; done.
Qed.

Lemma X_bulk_truncated_witness :
  parseBulkString (String "$"%char (("5" +:+ String CR EmptyString) +:+ String LF "ab"))
  = Fail ErrUnexpectedEOF.
Proof.
  apply (X_bulk_truncated "$"%char ("5" +:+ String CR EmptyString) "ab" 5).
  - reflexivity.
  - vm_compute. reflexivity.
  - lia.
  - unfold maxAlloc. lia.
  - simpl. lia.
Defined.

(** An array frame that announces [k] elements but whose stream ends
    after fewer complete elements is an error ([io.EOF]); the elements
    already read are dropped. *)
Theorem X_array_truncated (k : nat) (toks : list string) :
  (length toks < k)%nat -> 16 * Z.of_nat k <= maxAlloc ->
  Forall (fun t => Z.of_nat (String.length t) + 2 <= maxAlloc) toks ->
  parseRESP ("*" +:+ show_int (Z.of_nat k) +:+ crlf +:+ write_elements toks) = Fail EOF.
Proof.
  intros Hlt Hk Hall. rewrite LoopFacts.parse_array_header by done.
  rewrite <- (Str.app_nil_r (write_elements toks)).
  replace (Z.of_nat k) with (Z.of_nat (length toks) + (Z.of_nat k - Z.of_nat (length toks)))
    by lia.
  rewrite LoopFacts.parse_elements_write_more; [| |lia|done].
  - destruct (_ - length toks)%nat; simpl;
      (assert (E : (Z.of_nat k - Z.of_nat (length toks) <=? 0) = false)
         by (apply Z.leb_gt; lia)); rewrite E; done.
  - rewrite Str.length_app. pose proof (CodecFacts.write_elements_length toks). lia.
Qed.

Lemma X_array_truncated_witness :
  parseRESP ("*" +:+ show_int 3 +:+ crlf +:+ write_elements ["SET"; "k"]) = Fail EOF.
Proof.
  apply (X_array_truncated 3 ["SET"; "k"]).
  - simpl. lia.
  - unfold maxAlloc. lia.
  - repeat constructor; unfold maxAlloc; simpl; lia.
Defined.

(** Inside an array frame, an element that does not start with [$] stops
    the decoding with the error naming that byte, after any well-formed
    elements before it. *)
Theorem X_array_bad_element (k : nat) (toks : list string) (b : ascii) (rest : string) :
  (length toks < k)%nat -> 16 * Z.of_nat k <= maxAlloc ->
  Forall (fun t => Z.of_nat (String.length t) + 2 <= maxAlloc) toks ->
  b <> "$"%char ->
  parseRESP ("*" +:+ show_int (Z.of_nat k) +:+ crlf +:+ write_elements toks
             +:+ String b rest)
  = Fail (expected_bulk b).
Proof.
  intros Hlt Hk Hall Hb. rewrite LoopFacts.parse_array_header by done.
  replace (Z.of_nat k) with (Z.of_nat (length toks) + (Z.of_nat k - Z.of_nat (length toks)))
    by lia.
  rewrite LoopFacts.parse_elements_write_more; [| |lia|done].
  - rewrite Str.length_app. pose proof (CodecFacts.write_elements_length toks).
    replace (S (String.length (write_elements toks) + String.length (String b rest))
             - length toks)%nat
      with (S (S (String.length (write_elements toks) - length toks
                  + String.length rest)))%nat by (simpl; lia).
    cbn [parse_elements].
    assert (E : (Z.of_nat k - Z.of_nat (length toks) <=? 0) = false)
      by (apply Z.leb_gt; lia). rewrite E.
    cbn [ReadByte bind].
    assert (E2 : Ascii.eqb b "$"%char = false) by (apply Ascii.eqb_neq; done).
    rewrite E2. done.
  - rewrite Str.length_app. pose proof (CodecFacts.write_elements_length toks). lia.
Qed.

Lemma X_array_bad_element_witness :
  parseRESP ("*" +:+ show_int 2 +:+ crlf +:+ write_elements ["GET"]
             +:+ String ":"%char "1")
  = Fail (expected_bulk ":"%char).
Proof.
  apply (X_array_bad_element 2 ["GET"] ":"%char "1").
  - simpl. lia.
  - unfold maxAlloc. lia.
  - repeat constructor; unfold maxAlloc; simpl; lia.
  - discriminate.
Defined.

(** Inside an array frame, a bulk element with a negative length (the
    null bulk string) yields the empty token and reads no body: the next
    element starts right after its length line. *)
Theorem X_null_bulk_element (f : nat) (count : Z) (L rest : string) (n : Z) :
  0 < count ->
  no_newline L = true ->
  Atoi (TrimSpace (L +:+ String LF EmptyString)) = Some n -> n < 0 ->
  parse_elements (S f) count ("$" +:+ L +:+ String LF rest)
  = bind (parse_elements f (count - 1) rest) (fun xs s => Ok (EmptyString :: xs) s).
Proof.
  intros Hc HL HA Hn. cbn [parse_elements].
  assert (E : (count <=? 0) = false) by (apply Z.leb_gt; lia). rewrite E.
  change ("$" +:+ L +:+ ?Y) with (String "$"%char (L +:+ Y)).
  cbn [ReadByte bind negb Ascii.eqb]. simpl Ascii.eqb. cbv iota.
  unfold parseBulkString. cbn [ReadByte bind].
  rewrite CodecFacts.ReadLine_app by done. cbn [bind]. rewrite HA.
  assert (E2 : (n <? 0) = true) by (apply Z.ltb_lt; lia). rewrite E2. done.
Qed.

Lemma X_null_bulk_element_witness :
  parse_elements 2 2 ("$" +:+ ("-1" +:+ String CR EmptyString) +:+ String LF
                        ("$1" +:+ crlf +:+ "a" +:+ crlf))
  = Ok [EmptyString; "a"] EmptyString.
Proof.
  rewrite (X_null_bulk_element 1 2 ("-1" +:+ String CR EmptyString) _ (-1)).
  - reflexivity.
  - lia.
  - reflexivity.
  - vm_compute. reflexivity.
  - lia.
Defined.

(** An inline command (a line whose first byte is neither [*] nor [$])
    is split into tokens that are never empty and hold no ASCII space
    (tab, newline, carriage return, ...); the bytes after its newline are
    left unread. *)
Theorem X_inline_tokens (b : ascii) (l rest : string) :
  b <> "*"%char -> b <> "$"%char -> no_newline l = true ->
  exists toks, parseRESP (String b (l +:+ String LF rest)) = Ok toks rest
    /\ Forall (fun t => t <> EmptyString /\ has_ascii_space t = false) toks.
Proof.
  intros H1 H2 Hl. unfold parseRESP. cbn [ReadByte bind].
  rewrite (proj2 (Ascii.eqb_neq b "*"%char) H1), (proj2 (Ascii.eqb_neq b "$"%char) H2).
  rewrite CodecFacts.ReadLine_app by done. cbn [bind].
  eexists. split; [reflexivity|].
  apply (LoopFacts.fields_go_ok (String.length (String b (TrimSpace (l +:+ String LF EmptyString))))).
  - lia.
  - done.
Qed.

Lemma X_inline_tokens_witness :
  exists toks, parseRESP (String "G"%char (("ET" +:+ String "009"%char "k ") +:+ String LF "x"))
               = Ok toks "x"
    /\ Forall (fun t => t <> EmptyString /\ has_ascii_space t = false) toks.
Proof. apply X_inline_tokens; [discriminate|discriminate|reflexivity]. Defined.

(** An array frame with a count of zero or below gets no reply and
    leaves the state alone: the connection loop goes on with the bytes
    after its count line. *)
Theorem X_empty_array_skipped rc (L t : string) (c : Z) (r : FluxDB) :
  no_newline L = true ->
  Atoi (TrimSpace (L +:+ String LF EmptyString)) = Some c -> c <= 0 ->
  HandleConnection rc ("*" +:+ L +:+ String LF t) r = HandleConnection rc t r.
Proof.
  intros HL HA Hc.
  assert (P : parseRESP ("*" +:+ L +:+ String LF t) = Ok [] t).
  { change ("*" +:+ L +:+ ?Y) with (String "*"%char (L +:+ Y)).
    unfold parseRESP. cbn [ReadByte bind]. simpl Ascii.eqb. cbv iota.
    unfold parseArray. rewrite CodecFacts.ReadLine_app by done. cbn [bind].
    rewrite HA. destruct (c <? 0); [done|].
    assert (E' : make_strings_ok c = true)
      by (apply Z.leb_le; unfold maxAlloc; lia). rewrite E'.
    cbn [negb parse_elements].
    assert (E : (c <=? 0) = true) by (apply Z.leb_le; lia). rewrite E. done. }
  rewrite (LoopFacts.HandleConnection_step rc _ _ _ r P). done.
Qed.

Lemma X_empty_array_skipped_witness :
  HandleConnection example_rt ("*" +:+ ("-1" +:+ String CR EmptyString) +:+ String LF
                                   ("PING" +:+ crlf)) New
  = HandleConnection example_rt ("PING" +:+ crlf) New.
Proof.
  apply (X_empty_array_skipped example_rt _ _ (-1)).
  - reflexivity.
  - vm_compute. reflexivity.
  - lia.
Defined.

(** Pipelining: on a stream of array frames, one per command, the
    connection writes the replies of the commands run in order on one
    store, then stops with [io.EOF] at the end of the stream. *)
Theorem X_pipeline rc (cmds : list (list string)) (r : FluxDB) :
  Forall encodable cmds ->
  HandleConnection rc (encode_commands cmds) r
  = (concat_strings (fst (process_all rc cmds r)), snd (process_all rc cmds r), Fail EOF).
Proof.
  intros Hall. rewrite <- (Str.app_nil_r (encode_commands cmds)).
  rewrite LoopFacts.handle_encoded by done.
  destruct (process_all rc cmds r) as [replies r1].
  rewrite (LoopFacts.HandleConnection_fail rc EmptyString EOF r1) by done.
  simpl. rewrite Str.app_nil_r. done.
Qed.

Lemma X_pipeline_witness :
  HandleConnection example_rt (encode_commands [["SET"; "k"; "v"]; ["GET"; "k"]]) New
  = (concat_strings (fst (process_all example_rt [["SET"; "k"; "v"]; ["GET"; "k"]] New)),
     snd (process_all example_rt [["SET"; "k"; "v"]; ["GET"; "k"]] New), Fail EOF).
Proof.
  apply X_pipeline.
  repeat constructor; unfold maxAlloc; simpl; lia.
Defined.

(** The loop stops at the first unit the decoder rejects: the commands
    before it are all answered, nothing after it is read, and the error
    is how the connection ends. *)
Theorem X_stops_at_decode_error rc (cmds : list (list string)) (t : string)
    (e : read_error) (r : FluxDB) :
  Forall encodable cmds -> parseRESP t = Fail e ->
  HandleConnection rc (encode_commands cmds +:+ t) r
  = (concat_strings (fst (process_all rc cmds r)), snd (process_all rc cmds r), Fail e).
Proof.
  intros Hall Ht. rewrite LoopFacts.handle_encoded by done.
  destruct (process_all rc cmds r) as [replies r1].
  rewrite (LoopFacts.HandleConnection_fail rc t e r1) by done.
  simpl. rewrite Str.app_nil_r. done.
Qed.

Lemma X_stops_at_decode_error_witness :
  HandleConnection example_rt
    (encode_commands [["SET"; "k"; "v"]] +:+ ("*x" +:+ crlf +:+ "GET k" +:+ crlf)) New
  = (concat_strings (fst (process_all example_rt [["SET"; "k"; "v"]] New)),
     snd (process_all example_rt [["SET"; "k"; "v"]] New),
     Fail (invalid_array "x")).
Proof.
  apply X_stops_at_decode_error.
  - repeat constructor; unfold maxAlloc; simpl; lia.
  - vm_compute. reflexivity.
Defined.

(** A bulk string whose declared length [n] needs a buffer of more than
    [maxAlloc] bytes ([n + 2 > 2^48]) makes the decoder panic right after
    its length line, whatever follows: no byte of the body is read. This
    includes the lengths for which [n + 2] wraps around. *)
Theorem X_bulk_too_large (m : ascii) (L rest : string) (n : Z) :
  no_newline L = true ->
  Atoi (TrimSpace (L +:+ String LF EmptyString)) = Some n ->
  maxAlloc < n + 2 ->
  parseBulkString (String m (L +:+ String LF rest)) = Panic "makeslice: len out of range".
Proof.
  intros HL HA Hbig. pose proof (LoopFacts.Atoi_range _ _ HA) as Hr.
  assert (H0 : 0 <= maxAlloc) by (unfold maxAlloc; lia).
  unfold parseBulkString. cbn [ReadByte bind].
  rewrite CodecFacts.ReadLine_app by done. cbn [bind]. rewrite HA.
  assert (E1 : (n <? 0) = false) by (apply Z.ltb_ge; unfold maxAlloc in Hbig; lia). rewrite E1.
  rewrite LoopFacts.make_bytes_too_large by lia. done.
Qed.

Lemma X_bulk_too_large_witness :
  parseBulkString (String "$"%char (("281474976710655" +:+ String CR EmptyString)
                                     +:+ String LF "abc"))
  = Panic "makeslice: len out of range".
Proof.
  apply (X_bulk_too_large "$"%char ("281474976710655" +:+ String CR EmptyString) "abc"
           281474976710655).
  - reflexivity.
  - vm_compute. reflexivity.
  - unfold maxAlloc. lia.
Defined.

(** An array frame whose count needs a slice of more than [maxAlloc]
    bytes (16 bytes per string header, so a count above [2^44]) makes the
    decoder panic right after the count line, before any element. *)
Theorem X_array_too_large (L rest : string) (count : Z) :
  no_newline L = true ->
  Atoi (TrimSpace (L +:+ String LF EmptyString)) = Some count ->
  maxAlloc < 16 * count ->
  parseRESP (String "*"%char (L +:+ String LF rest)) = Panic "makeslice: cap out of range".
Proof.
  intros HL HA Hbig.
  assert (H0 : 0 <= maxAlloc) by (unfold maxAlloc; lia).
  unfold parseRESP. cbn [ReadByte bind]. simpl Ascii.eqb. cbv iota.
  unfold parseArray. rewrite CodecFacts.ReadLine_app by done. cbn [bind].
  rewrite HA.
  assert (E1 : (count <? 0) = false) by (apply Z.ltb_ge; lia).
  assert (E2 : make_strings_ok count = false) by (apply Z.leb_gt; lia).
  rewrite E1, E2. done.
Qed.

Lemma X_array_too_large_witness :
  parseRESP (String "*"%char (("17592186044417" +:+ String CR EmptyString)
                               +:+ String LF EmptyString))
  = Panic "makeslice: cap out of range".
Proof.
  apply (X_array_too_large ("17592186044417" +:+ String CR EmptyString) EmptyString
           17592186044417).
  - reflexivity.
  - vm_compute. reflexivity.
  - unfold maxAlloc. lia.
Defined.
